(** * Roundus: PKCE relay and token lifecycle

    A shallow embedding of the Roundus sources:
    - [src/App.tsx]              the React client (PKCE generator, exchange,
                                 validation, polling effect);
    - [src/utils/spotify.ts]     the axios/CryptoJS helper (verifier, challenge,
                                 refresh, currently-playing);
    - the Express server         [/login], [/callback], [/exchange-token],
                                 [/current-track].

    Conventions.  A JavaScript string is a Rocq [string]: the sequence of its
    UTF-8 bytes, which for the ASCII strings the program builds is the sequence
    of its characters.  JavaScript numbers are restricted to the integers the
    program computes with (status codes, seconds, millisecond instants), with
    [NaN] kept apart.  Values of type [any] (parsed JSON, query parameters)
    are the inductive [JS.value]. *)

From Stdlib Require Import ZArith List String Ascii Bool Lia QArith Qround.
From stdpp Require Import base gmap strings list.
Import ListNotations.

Set Warnings "-register-all".
Local Open Scope string_scope.
Local Open Scope Z_scope.

(* ===================================================================== *)
(** ** Strings as JavaScript uses them *)
(* ===================================================================== *)

Module Str.


(** [s.replace(/c/g, d)] for a one-character pattern and replacement. *)
Fixpoint replace_all (c d : ascii) (s : string) : string :=
  match s with
  | "" => ""
  | String a r => String (if Ascii.eqb a c then d else a) (replace_all c d r)
  end.

(** [s.replace(/c+$/, '')]: the maximal run of [c] at the end is removed. *)
Fixpoint strip_trailing (c : ascii) (s : string) : string :=
  match s with
  | "" => ""
  | String a r =>
      let r' := strip_trailing c r in
      if Ascii.eqb a c && String.eqb r' "" then "" else String a r'
  end.

(** Membership of a character, and the last character. *)
Fixpoint mem (c : ascii) (s : string) : bool :=
  match s with
  | "" => false
  | String a r => Ascii.eqb a c || mem c r
  end.

Fixpoint last (s : string) : option ascii :=
  match s with
  | "" => None
  | String a "" => Some a
  | String _ r => last r
  end.

Fixpoint forallb (p : ascii -> bool) (s : string) : bool :=
  match s with
  | "" => true
  | String a r => p a && forallb p r
  end.

(** [s.split(sep)] for a one-character separator: the pieces between the
    separators, in order (never the empty list). *)
Fixpoint split (sep : ascii) (s : string) : list string :=
  match s with
  | "" => [""]
  | String a r =>
      if Ascii.eqb a sep then "" :: split sep r
      else match split sep r with
           | p :: ps => String a p :: ps
           | [] => [String a ""]
           end
  end.

(** The bytes of a string ([TextEncoder.encode] on the UTF-8 view) and the
    binary string of a byte sequence ([String.fromCharCode(...bytes)]). *)
Definition bytes (s : string) : list Z :=
  map (fun a => Z.of_N (N_of_ascii a)) (list_ascii_of_string s).

Definition of_bytes (l : list Z) : string :=
  string_of_list_ascii (map (fun b => ascii_of_N (Z.to_N (b mod 256))) l).

End Str.

(* ===================================================================== *)
(** ** SHA-256 (FIPS 180-4), the digest both challenge derivations call *)
(* ===================================================================== *)

Module SHA256.

Definition w32 (x : Z) : Z := x mod 2 ^ 32.
Definition add32 (x y : Z) : Z := w32 (x + y).
Definition rotr (n x : Z) : Z :=
  Z.lor (Z.shiftr x n) (w32 (Z.shiftl x (32 - n))).
Definition not32 (x : Z) : Z := 2 ^ 32 - 1 - x.

Definition Ch (x y z : Z) : Z := Z.lxor (Z.land x y) (Z.land (not32 x) z).
Definition Maj (x y z : Z) : Z :=
  Z.lxor (Z.lxor (Z.land x y) (Z.land x z)) (Z.land y z).
Definition Sig0 (x : Z) : Z := Z.lxor (Z.lxor (rotr 2 x) (rotr 13 x)) (rotr 22 x).
Definition Sig1 (x : Z) : Z := Z.lxor (Z.lxor (rotr 6 x) (rotr 11 x)) (rotr 25 x).
Definition sig0 (x : Z) : Z := Z.lxor (Z.lxor (rotr 7 x) (rotr 18 x)) (Z.shiftr x 3).
Definition sig1 (x : Z) : Z := Z.lxor (Z.lxor (rotr 17 x) (rotr 19 x)) (Z.shiftr x 10).

(** The round constants are the first 32 bits of the fractional parts of
    the cube roots of the first 64 primes, the initial hash value those of
    the square roots of the first 8. *)
Definition is_prime (n : nat) : bool :=
  (1 <? n)%nat && List.forallb (fun d => negb (n mod d =? 0)%nat) (seq 2 (n - 2)).

Definition first_primes (count : nat) : list Z :=
  map Z.of_nat (firstn count (List.filter is_prime (seq 2 400))).

(** The integer cube root by bits, from bit [bits - 1] down. *)
Fixpoint cube_root (bits : nat) (n root : Z) : Z :=
  match bits with
  | O => root
  | S b =>
      let candidate := root + 2 ^ Z.of_nat b in
      cube_root b n (if candidate * candidate * candidate <=? n then candidate else root)
  end.

Definition K : list Z :=
  Eval vm_compute in
    map (fun p => w32 (cube_root 40 (p * 2 ^ 96) 0)) (first_primes 64).

Definition H0 : list Z :=
  Eval vm_compute in map (fun p => w32 (Z.sqrt (p * 2 ^ 64))) (first_primes 8).

(** Padding: a [0x80] byte, zeros up to 56 modulo 64, the bit length on
    eight big-endian bytes. *)
Definition be_bytes (n : nat) (x : Z) : list Z :=
  map (fun i => Z.shiftr x (8 * Z.of_nat i) mod 256) (rev (seq 0 n)).

Definition pad (msg : list Z) : list Z :=
  let len := Z.of_nat (List.length msg) in
  let zeros := Z.to_nat ((55 - len) mod 64) in
  msg ++ [0x80] ++ repeat 0 zeros ++ be_bytes 8 (8 * len).

Fixpoint words (fuel : nat) (bs : list Z) : list Z :=
  match fuel, bs with
  | S f, a :: b :: c :: d :: r =>
      (Z.shiftl a 24 + Z.shiftl b 16 + Z.shiftl c 8 + d) :: words f r
  | _, _ => []
  end.

Definition word_at (w : list Z) (i : nat) : Z := nth i w 0.

(** The message schedule: sixteen block words extended to sixty-four. *)
Fixpoint schedule (n : nat) (w : list Z) : list Z :=
  match n with
  | O => w
  | S m =>
      let t := List.length w in
      let x := add32 (add32 (sig1 (word_at w (t - 2))) (word_at w (t - 7)))
                     (add32 (sig0 (word_at w (t - 15))) (word_at w (t - 16))) in
      schedule m (w ++ [x])
  end.

Definition round (st : list Z) (kw : Z * Z) : list Z :=
  match st with
  | [a; b; c; d; e; f; g; h] =>
      let t1 := add32 (add32 (add32 h (Sig1 e)) (add32 (Ch e f g) (fst kw))) (snd kw) in
      let t2 := add32 (Sig0 a) (Maj a b c) in
      [add32 t1 t2; a; b; c; add32 d t1; e; f; g]
  | _ => st
  end.

Definition compress (h : list Z) (block : list Z) : list Z :=
  let w := schedule 48 (words 16 block) in
  let st := fold_left round (combine K w) h in
  map (fun p => add32 (fst p) (snd p)) (combine h st).

Fixpoint blocks (fuel : nat) (bs : list Z) : list (list Z) :=
  match fuel with
  | O => []
  | S f => match bs with
           | [] => []
           | _ => firstn 64 bs :: blocks f (skipn 64 bs)
           end
  end.

(** The 32 digest bytes of a byte sequence. *)
Definition digest (msg : list Z) : list Z :=
  let p := pad msg in
  let h := fold_left compress (blocks (List.length p) p) H0 in
  concat (map (be_bytes 4) h).

End SHA256.

(* ===================================================================== *)
(** ** Base64 and hexadecimal text of a byte sequence *)
(* ===================================================================== *)

Module Enc.

Definition alphabet : string :=
  "ABCDEFGHIJKLMNOPQRSTUVWXYZabcdefghijklmnopqrstuvwxyz0123456789+/".

Definition sextet (i : Z) : ascii :=
  match String.get (Z.to_nat (i mod 64)) alphabet with
  | Some c => c
  | None => "="%char
  end.

(** Standard Base64 with [=] padding, as [btoa] and CryptoJS's
    [enc.Base64] produce it. *)
Fixpoint base64 (bs : list Z) : string :=
  match bs with
  | [] => ""
  | [a] =>
      String (sextet (Z.shiftr a 2))
        (String (sextet (Z.shiftl (Z.land a 3) 4)) "==")
  | [a; b] =>
      String (sextet (Z.shiftr a 2))
        (String (sextet (Z.lor (Z.shiftl (Z.land a 3) 4) (Z.shiftr b 4)))
           (String (sextet (Z.shiftl (Z.land b 15) 2)) "="))
  | a :: b :: c :: r =>
      String (sextet (Z.shiftr a 2))
        (String (sextet (Z.lor (Z.shiftl (Z.land a 3) 4) (Z.shiftr b 4)))
           (String (sextet (Z.lor (Z.shiftl (Z.land b 15) 2) (Z.shiftr c 6)))
              (String (sextet (Z.land c 63)) (base64 r))))
  end.

Definition hex_digit (i : Z) : ascii :=
  match String.get (Z.to_nat (i mod 16)) "0123456789abcdef" with
  | Some c => c
  | None => "0"%char
  end.

(** Two lower-case hexadecimal digits per byte (CryptoJS's [enc.Hex], the
    default of [WordArray.toString()]). *)
Fixpoint hex (bs : list Z) : string :=
  match bs with
  | [] => ""
  | b :: r => String (hex_digit (Z.shiftr (b mod 256) 4))
                (String (hex_digit (Z.land b 15)) (hex r))
  end.

(** [btoa] on a binary string. *)
Definition btoa (s : string) : string := base64 (Str.bytes s).

End Enc.

(* ===================================================================== *)
(** ** JavaScript values, coercions and exceptions *)
(* ===================================================================== *)

Module JS.

(** A value of type [any]: what [JSON.parse], a query-string parser or a
    missing property can produce. *)
Inductive value : Type :=
| VUndefined
| VNull
| VBool (b : bool)
| VNum (n : Z)
| VStr (s : string)
| VArr (items : list value)
| VObj (fields : list (string * value)).

(** What a [throw] carries.  An axios error holds the response (status and
    data) when the server answered, nothing when the transport failed. *)
Inductive error : Type :=
| TypeError (message : string)
| SyntaxError (message : string)
| Error (message : string)
| AxiosError (response : option (Z * value)) (message : string).

Inductive result (A : Type) : Type :=
| Ok (a : A)
| Throw (e : error).
Arguments Ok {A} a.
Arguments Throw {A} e.

(** ToBoolean: [if (v)], [!v], [v || w]. *)
Definition truthy (v : value) : bool :=
  match v with
  | VUndefined | VNull => false
  | VBool b => b
  | VNum n => negb (n =? 0)
  | VStr s => negb (String.eqb s "")
  | VArr _ | VObj _ => true
  end.

Definition falsy (v : value) : bool := negb (truthy v).

(** [a || b]. *)
Definition or_else (a b : value) : value := if truthy a then a else b.

(** Decimal text of an integer. *)
Fixpoint digits (fuel : nat) (n : Z) (acc : string) : string :=
  match fuel with
  | O => acc
  | S f =>
      let d := ascii_of_N (Z.to_N (48 + n mod 10)) in
      if n <? 10 then String d acc else digits f (n / 10) (String d acc)
  end.

Definition decimal (n : Z) : string :=
  if n <? 0 then String "-" (digits (S (Z.to_nat (Z.log2 (- n)))) (- n) "")
  else digits (S (Z.to_nat (Z.log2 n))) n "".

(** ToString: template literals, [String(v)], [setItem] and
    [encodeURIComponent] arguments.  Inside an array [null] and
    [undefined] print as nothing. *)
Fixpoint to_string (v : value) : string :=
  match v with
  | VUndefined => "undefined"
  | VNull => "null"
  | VBool true => "true"
  | VBool false => "false"
  | VNum n => decimal n
  | VStr s => s
  | VArr items =>
      let elem x := match x with
                    | VUndefined | VNull => ""
                    | _ => to_string x
                    end in
      (fix join (l : list value) : string :=
         match l with
         | [] => ""
         | [x] => elem x
         | x :: r => elem x +:+ "," +:+ join r
         end) items
  | VObj _ => "[object Object]"
  end.

(** Own data property of an association list of fields. *)
Fixpoint field (k : string) (fs : list (string * value)) : value :=
  match fs with
  | [] => VUndefined
  | (k', v) :: r => if String.eqb k k' then v else field k r
  end.

Definition nullish_message (v : value) (k : string) : string :=
  "Cannot read properties of " +:+ to_string v +:+ " (reading '" +:+ k +:+ "')".

(** [v.k]: reading a property of [undefined] or [null] throws a
    [TypeError]; an object yields its field or [undefined]; the names this
    program reads are data names that no primitive or array inherits, so
    every other value yields [undefined]. *)
Definition get (v : value) (k : string) : result value :=
  match v with
  | VUndefined | VNull => Throw (TypeError (nullish_message v k))
  | VObj fs => Ok (field k fs)
  | _ => Ok VUndefined
  end.

(** [v[i]] for a literal index. *)
Definition index (v : value) (i : nat) : result value :=
  match v with
  | VUndefined | VNull =>
      Throw (TypeError (nullish_message v (decimal (Z.of_nat i))))
  | VArr items => Ok (nth i items VUndefined)
  | VStr s => Ok (match String.get i s with
                  | Some c => VStr (String c "")
                  | None => VUndefined
                  end)
  | VObj fs => Ok (field (decimal (Z.of_nat i)) fs)
  | _ => Ok VUndefined
  end.

(** [v?.k]. *)
Definition get_opt (v : value) (k : string) : value :=
  match v with
  | VObj fs => field k fs
  | _ => VUndefined
  end.

(** Equality of values is decidable ([Object.is] on the data the program
    compares). *)
Fixpoint value_eq_dec (x y : value) {struct x} : {x = y} + {x <> y}.
Proof.
  decide equality.
  - apply Bool.bool_dec.
  - apply Z.eq_dec.
  - apply String.string_dec.
  - apply (List.list_eq_dec value_eq_dec).
  - apply List.list_eq_dec. intros [k1 v1] [k2 v2].
    destruct (String.string_dec k1 k2) as [->|Hk];
      [destruct (value_eq_dec v1 v2) as [->|Hv]|];
      [left; reflexivity | right; congruence | right; congruence].
Defined.

Definition same (x y : value) : bool :=
  if value_eq_dec x y then true else false.

Definition bind {A B} (r : result A) (k : A -> result B) : result B :=
  match r with
  | Ok a => k a
  | Throw e => Throw e
  end.

(** [err.message], [err.response?.status], [err.response?.data]. *)
Definition message (e : error) : string :=
  match e with
  | TypeError m | SyntaxError m | Error m | AxiosError _ m => m
  end.

Definition response_status (e : error) : value :=
  match e with
  | AxiosError (Some (st, _)) _ => VNum st
  | _ => VUndefined
  end.

Definition response_data (e : error) : value :=
  match e with
  | AxiosError (Some (_, d)) _ => d
  | _ => VUndefined
  end.

Definition isAxiosError (e : error) : bool :=
  match e with
  | AxiosError _ _ => true
  | _ => false
  end.

(** What [JSON.stringify] keeps of a value: fields holding [undefined]
    disappear from objects, [undefined] array items become [null]. *)
Fixpoint jsonify (v : value) : value :=
  match v with
  | VArr items =>
      VArr (map (fun x => match x with VUndefined => VNull | _ => jsonify x end) items)
  | VObj fs =>
      VObj ((fix go (l : list (string * value)) : list (string * value) :=
               match l with
               | [] => []
               | (k, VUndefined) :: r => go r
               | (k, x) :: r => (k, jsonify x) :: go r
               end) fs)
  | _ => v
  end.

(** Numbers: an integer or [NaN]. *)
Definition num : Type := option Z.

Definition is_space (a : ascii) : bool :=
  let n := N_of_ascii a in
  ((9 <=? n) && (n <=? 13))%N || (n =? 32)%N.

Fixpoint skip_spaces (s : string) : string :=
  match s with
  | String a r => if is_space a then skip_spaces r else s
  | "" => ""
  end.

Definition digit_value (radix : Z) (a : ascii) : option Z :=
  let n := Z.of_N (N_of_ascii a) in
  let d := if (48 <=? n) && (n <=? 57) then n - 48
           else if (97 <=? n) && (n <=? 122) then n - 87
           else if (65 <=? n) && (n <=? 90) then n - 55
           else 99 in
  if d <? radix then Some d else None.

(** The longest prefix of digits in the radix, folded to its value. *)
Fixpoint digits_prefix (radix : Z) (s : string) (acc : option Z) : option Z :=
  match s with
  | "" => acc
  | String a r =>
      match digit_value radix a with
      | Some d => digits_prefix radix r (Some (radix * default 0 acc + d))
      | None => acc
      end
  end.

(** [parseInt(s)]: leading white space, an optional sign, an optional
    [0x] prefix, then the digits; [NaN] when there is no digit. *)
Definition parseInt (s : string) : num :=
  let s1 := skip_spaces s in
  let '(sign, s2) := match s1 with
                     | String "-" r => (-1, r)
                     | String "+" r => (1, r)
                     | _ => (1, s1)
                     end in
  let '(radix, s3) := match s2 with
                      | String "0" (String "x" r) => (16, r)
                      | String "0" (String "X" r) => (16, r)
                      | _ => (10, s2)
                      end in
  match digits_prefix radix s3 None with
  | Some n => Some (sign * n)
  | None => None
  end.

(** ToNumber on the integer model: numbers, booleans, [null] and plain
    decimal strings convert; [undefined], objects and every other text give
    [NaN]. *)
Definition to_number (v : value) : num :=
  match v with
  | VNum n => Some n
  | VBool b => Some (if b then 1 else 0)
  | VNull => Some 0
  | VStr s =>
      let is_digit a := match digit_value 10 a with Some _ => true | None => false end in
      match skip_spaces s with
      | "" => Some 0
      | String "-" r =>
          if negb (String.eqb r "") && Str.forallb is_digit r
          then option_map Z.opp (digits_prefix 10 r None) else None
      | t => if Str.forallb is_digit t then digits_prefix 10 t None else None
      end
  | _ => None
  end.

(** [a + b], [a * b] and [a > b] on numbers. *)
Definition add (a b : num) : num :=
  match a, b with Some x, Some y => Some (x + y) | _, _ => None end.
Definition mul (a b : num) : num :=
  match a, b with Some x, Some y => Some (x * y) | _, _ => None end.
Definition gt (a b : num) : bool :=
  match a, b with Some x, Some y => y <? x | _, _ => false end.

Definition num_to_string (n : num) : string :=
  match n with
  | Some z => decimal z
  | None => "NaN"
  end.

End JS.

(* ===================================================================== *)
(** ** HTTP messages and URL encodings *)
(* ===================================================================== *)

Module Http.

Inductive body : Type :=
| NoBody
| TextBody (text : string)
| JsonBody (v : JS.value).

Record request : Type := Request {
  method : string;
  url : string;
  headers : list (string * string);
  payload : body
}.

(** The content of an answer: JSON that parses, or other text. *)
Inductive content : Type :=
| Parsed (v : JS.value)
| Raw (text : string).

(** What a network call comes back with: an answer, or a transport
    failure with its message. *)
Inductive reply : Type :=
| Reply (status : Z) (content_type : option string) (c : content)
| NetworkFailure (message : string).

(** axios: [response.data] is the parsed JSON, or the text as it is. *)
Definition data (c : content) : JS.value :=
  match c with
  | Parsed v => v
  | Raw t => JS.VStr t
  end.

(** fetch: [await response.json()]. *)
Definition json (c : content) : JS.result JS.value :=
  match c with
  | Parsed v => JS.Ok v
  | Raw _ => JS.Throw (JS.SyntaxError "Unexpected token in JSON")
  end.

(** fetch's [response.ok] and axios's default [validateStatus]. *)
Definition ok (status : Z) : bool := (200 <=? status) && (status <=? 299).

(** axios resolves on a 2xx status and rejects with an [AxiosError]
    otherwise. *)
Definition axios (r : reply) : JS.result (Z * JS.value) :=
  match r with
  | Reply st _ c =>
      if ok st then JS.Ok (st, data c)
      else JS.Throw (JS.AxiosError (Some (st, data c))
                       ("Request failed with status code " +:+ JS.decimal st))
  | NetworkFailure m => JS.Throw (JS.AxiosError None m)
  end.

Definition percent (a : ascii) : string :=
  let n := Z.of_N (N_of_ascii a) in
  let hexd i := match String.get (Z.to_nat i) "0123456789ABCDEF" with
                | Some c => c
                | None => "0"%char
                end in
  String "%" (String (hexd (n / 16)) (String (hexd (n mod 16)) "")).

Definition alnum (a : ascii) : bool :=
  let n := Z.of_N (N_of_ascii a) in
  ((48 <=? n) && (n <=? 57)) || ((65 <=? n) && (n <=? 90))
  || ((97 <=? n) && (n <=? 122)).

(** [encodeURIComponent]: letters, digits and [-_.!~*'()] stay, every
    other byte becomes [%XX]. *)
Definition uri_unreserved (a : ascii) : bool :=
  alnum a || Str.mem a "-_.!~*'()".

Fixpoint encodeURIComponent (s : string) : string :=
  match s with
  | "" => ""
  | String a r =>
      (if uri_unreserved a then String a "" else percent a)
      +:+ encodeURIComponent r
  end.

(** [URLSearchParams.toString()]: the form-urlencoded serialisation. *)
Fixpoint form_encode (s : string) : string :=
  match s with
  | "" => ""
  | String a r =>
      (if alnum a || Str.mem a "*-._" then String a ""
       else if Ascii.eqb a " " then "+"
       else percent a) +:+ form_encode r
  end.

Fixpoint search_params (l : list (string * string)) : string :=
  match l with
  | [] => ""
  | [(k, v)] => form_encode k +:+ "=" +:+ form_encode v
  | (k, v) :: r => form_encode k +:+ "=" +:+ form_encode v +:+ "&" +:+ search_params r
  end.

End Http.

Declare Scope js_scope.
Delimit Scope js_scope with js.
Notation "x <- e ;; k" := (JS.bind e (fun x => k))
  (at level 100, e at next level, right associativity) : js_scope.

(* ===================================================================== *)
(** ** The Express server: relay, exchanger and track proxy *)
(* ===================================================================== *)

Module Server.
Import JS Http.

(** [process.env]: every entry is a string or missing. *)
Record environment : Type := Environment {
  SPOTIFY_CLIENT_ID : option string;
  SPOTIFY_CLIENT_SECRET : option string;
  SPOTIFY_REDIRECT_URI : option string;
  FRONTEND_URL : option string
}.

Definition env_value (o : option string) : value :=
  match o with
  | Some s => VStr s
  | None => VUndefined
  end.

Definition SPOTIFY_AUTH_URL : string := "https://accounts.spotify.com/authorize".
Definition SPOTIFY_TOKEN_URL : string := "https://accounts.spotify.com/api/token".
Definition SPOTIFY_PLAYING_URL : string :=
  "https://api.spotify.com/v1/me/player/currently-playing".

Definition FRONTEND_CALLBACK_URL (env : environment) : string :=
  to_string (or_else (env_value (FRONTEND_URL env)) (VStr "http://localhost:5176")).

(** What a handler sends back. *)
Inductive response : Type :=
| Json (status : Z) (body : value)
| Redirect (location : string)
| Send (status : Z).

(** A handler's run: its response and the requests it made to the
    provider on the way, in order. *)
Record outcome : Type := Outcome {
  sent : response;
  calls : list request
}.

(** [err.response?.status || 500]. *)
Definition status_or_500 (e : error) : Z :=
  match or_else (response_status e) (VNum 500) with
  | VNum n => n
  | _ => 500
  end.

(** [GET /login]. *)
Definition login (env : environment) (query : list (string * value)) : outcome :=
  let code_challenge := field "code_challenge" query in
  let code_challenge_method := field "code_challenge_method" query in
  if falsy code_challenge || falsy code_challenge_method then
    Outcome (Json 400 (VObj [("error",
      VStr "Missing PKCE parameters (code_challenge or code_challenge_method)")])) []
  else
    let params := search_params
      [("response_type", "code");
       ("client_id", to_string (env_value (SPOTIFY_CLIENT_ID env)));
       ("scope", "user-read-currently-playing user-read-playback-state");
       ("redirect_uri", to_string (env_value (SPOTIFY_REDIRECT_URI env)));
       ("code_challenge", to_string code_challenge);
       ("code_challenge_method", to_string code_challenge_method)] in
    Outcome (Redirect (SPOTIFY_AUTH_URL +:+ "?" +:+ params)) [].

(** [GET /callback]: the provider's redirect is turned into a redirect to
    the front end. *)
Definition callback (env : environment) (query : list (string * value)) : outcome :=
  let code := field "code" query in
  let error := field "error" query in
  if truthy error then
    Outcome (Redirect (FRONTEND_CALLBACK_URL env +:+ "?error="
                       +:+ encodeURIComponent (to_string error))) []
  else if falsy code then
    Outcome (Redirect (FRONTEND_CALLBACK_URL env +:+ "?error=missing_code")) []
  else
    Outcome (Redirect (FRONTEND_CALLBACK_URL env +:+ "?code=" +:+ to_string code)) [].

Definition exchange_request (env : environment) (code code_verifier : value) : request :=
  let params := search_params
    [("grant_type", "authorization_code");
     ("code", to_string code);
     ("redirect_uri", to_string (env_value (SPOTIFY_REDIRECT_URI env)));
     ("client_id", to_string (env_value (SPOTIFY_CLIENT_ID env)));
     ("code_verifier", to_string code_verifier)] in
  Request "POST" SPOTIFY_TOKEN_URL
    [("Content-Type", "application/x-www-form-urlencoded");
     ("Authorization", "Basic " +:+ Enc.base64 (Str.bytes
        (to_string (env_value (SPOTIFY_CLIENT_ID env)) +:+ ":"
         +:+ to_string (env_value (SPOTIFY_CLIENT_SECRET env)))))]
    (TextBody params).

(** [POST /exchange-token] with the parsed JSON object of the body. *)
Definition exchange_token (env : environment) (provider : request -> reply)
    (body : list (string * value)) : outcome :=
  let code := field "code" body in
  let code_verifier := field "code_verifier" body in
  if falsy code || falsy code_verifier then
    Outcome (Json 400 (VObj [("error",
      VStr "Missing code or code_verifier in request body")])) []
  else
    let req := exchange_request env code code_verifier in
    let attempt :=
      (resp <- axios (provider req) ;;
       access_token <- get (snd resp) "access_token" ;;
       expires_in <- get (snd resp) "expires_in" ;;
       refresh_token <- get (snd resp) "refresh_token" ;;
       Ok (Json 200 (jsonify (VObj [("access_token", access_token);
                                    ("expires_in", expires_in);
                                    ("refresh_token", refresh_token)]))))%js in
    match attempt with
    | Ok r => Outcome r [req]
    | Throw err =>
        Outcome (Json (status_or_500 err)
                   (jsonify (VObj [("error", VStr "Failed to exchange code for token");
                                   ("details", or_else (response_data err)
                                                 (VStr (message err)))])))
                [req]
    end.

(** [req.headers.authorization?.split(' ')[1]]. *)
Definition bearer_token (authorization : option string) : value :=
  match authorization with
  | None => VUndefined
  | Some h => match Str.split " " h with
              | _ :: t :: _ => VStr t
              | _ => VUndefined
              end
  end.

Definition playing_request (token : value) : request :=
  Request "GET" SPOTIFY_PLAYING_URL
    [("Authorization", "Bearer " +:+ to_string token)] NoBody.

(** The body of the [try] once the provider has answered with success. *)
Definition track_of (resp : Z * value) : result response :=
  let '(status, data) := resp in
  (if (status =? 204) || falsy data then Ok (Send 204)
   else
     probe <- get data "item" ;;
     if falsy probe then Ok (Send 204)
     else
       item <- get data "item" ;;
       is_playing <- get data "is_playing" ;;
       name <- get item "name" ;;
       artists <- get item "artists" ;;
       artist0 <- index artists 0 ;;
       artist <- get artist0 "name" ;;
       album <- get item "album" ;;
       album_name <- get album "name" ;;
       album' <- get item "album" ;;
       images <- get album' "images" ;;
       image0 <- index images 0 ;;
       albumArt <- get image0 "url" ;;
       Ok (Json 200 (jsonify (VObj [("name", name);
                                    ("artist", artist);
                                    ("album", album_name);
                                    ("albumArt", albumArt);
                                    ("isPlaying", is_playing)]))))%js.

(** [GET /current-track] with the request's [Authorization] header. *)
Definition current_track (provider : request -> reply)
    (authorization : option string) : outcome :=
  let token := bearer_token authorization in
  if falsy token then
    Outcome (Json 401 (VObj [("error", VStr "No token provided")])) []
  else
    let req := playing_request token in
    match (resp <- axios (provider req) ;; track_of resp)%js with
    | Ok r => Outcome r [req]
    | Throw err =>
        Outcome (Json (status_or_500 err)
                   (jsonify (VObj [("error", VStr "Spotify API error during track fetch");
                                   ("details", or_else (response_data err)
                                                 (VStr (message err)))])))
                [req]
    end.

End Server.

(* ===================================================================== *)
(** ** [src/utils/spotify.ts]: the axios and CryptoJS helper *)
(* ===================================================================== *)

Declare Scope io_scope.
Delimit Scope io_scope with io.

Module Spotify.
Import JS Http.

Definition SPOTIFY_API_URL : string := "https://api.spotify.com/v1".
Definition BACKEND_URL : string := "http://localhost:3000".

(** The browser as the helper sees it: durable storage, and the requests
    sent so far. *)
Record world : Type := World {
  localStorage : gmap string string;
  sent : list request
}.

(** The outside: how a request is answered and what [Date.now()] reads,
    each as a function of the requests already sent. *)
Record network : Type := Network {
  respond : list request -> request -> reply;
  clock : list request -> Z
}.

(** Computations that read and write the world and may throw. *)
Definition M (A : Type) : Type := world -> result A * world.

Definition ret {A} (a : A) : M A := fun w => (Ok a, w).
Definition throw {A} (e : error) : M A := fun w => (Throw e, w).
Definition bind {A B} (m : M A) (k : A -> M B) : M B :=
  fun w => match m w with
           | (Ok a, w') => k a w'
           | (Throw e, w') => (Throw e, w')
           end.
Definition try_catch {A} (m : M A) (handler : error -> M A) : M A :=
  fun w => match m w with
           | (Ok a, w') => (Ok a, w')
           | (Throw e, w') => handler e w'
           end.
Definition lift {A} (r : result A) : M A := fun w => (r, w).

Notation "x <- e ;; k" := (bind e (fun x => k))
  (at level 100, e at next level, right associativity) : io_scope.
Notation "e ;; k" := (bind e (fun _ => k))
  (at level 100, right associativity) : io_scope.

(** [localStorage.getItem(k)]: the stored string or [null]. *)
Definition getItem (k : string) : M value :=
  fun w => (Ok (match localStorage w !! k with
                | Some s => VStr s
                | None => VNull
                end), w).

(** [localStorage.setItem(k, v)]: the value is stored as its text. *)
Definition setItem (k : string) (v : string) : M unit :=
  fun w => (Ok tt, World (<[k := v]> (localStorage w)) (sent w)).

(** CryptoJS: [lib.WordArray.random(n)] as the first [n] bytes of a random
    source, and [SHA256] of a string's UTF-8 bytes. *)
Definition WordArray_random (source : nat -> Z) (n : nat) : list Z :=
  map (fun i => source i mod 256) (seq 0 n).

Definition generateCodeVerifier (source : nat -> Z) : M string :=
  (let codeVerifier := Enc.hex (WordArray_random source 32) in
   setItem "code_verifier" codeVerifier ;;
   ret codeVerifier)%io.

Definition generateCodeChallenge (codeVerifier : string) : string :=
  Str.strip_trailing "="
    (Str.replace_all "/" "_"
       (Str.replace_all "+" "-"
          (Enc.base64 (SHA256.digest (Str.bytes codeVerifier))))).

Section WithNetwork.
Variable net : network.

Definition Date_now : M Z := fun w => (Ok (clock net (sent w)), w).

Definition send (req : request) : M (Z * value) :=
  fun w => (axios (respond net (sent w) req),
            World (localStorage w) (sent w ++ [req])).

Definition axios_post (url : string) (data : value) : M (Z * value) :=
  send (Request "POST" url [("Content-Type", "application/json")] (JsonBody data)).

(** [String(Date.now() + expires_in * 1000)]. *)
Definition expiry_text (now : Z) (expires_in : value) : string :=
  num_to_string (add (Some now) (mul (to_number expires_in) (Some 1000))).

Definition exchangeCodeForToken (code : value) : M value :=
  (codeVerifier <- getItem "code_verifier" ;;
   if falsy codeVerifier then
     throw (Error "No code verifier found. Please try logging in again.")
   else
     try_catch
       (response <- axios_post (BACKEND_URL +:+ "/api/spotify/token")
                      (VObj [("code", code); ("code_verifier", codeVerifier)]) ;;
        access_token <- lift (get (snd response) "access_token") ;;
        refresh_token <- lift (get (snd response) "refresh_token") ;;
        expires_in <- lift (get (snd response) "expires_in") ;;
        setItem "access_token" (to_string access_token) ;;
        setItem "refresh_token" (to_string refresh_token) ;;
        now <- Date_now ;;
        setItem "token_expiry" (expiry_text now expires_in) ;;
        ret (VObj [("access_token", access_token); ("refresh_token", refresh_token)]))
       (fun error =>
          if isAxiosError error then
            throw (Error (to_string
              (or_else (get_opt (response_data error) "error")
                       (VStr "Failed to exchange code for token"))))
          else throw error))%io.

Definition refreshAccessToken : M value :=
  (refresh_token <- getItem "refresh_token" ;;
   if falsy refresh_token then throw (Error "No refresh token available")
   else
     try_catch
       (response <- axios_post (BACKEND_URL +:+ "/api/spotify/token")
                      (VObj [("grant_type", VStr "refresh_token");
                             ("refresh_token", refresh_token)]) ;;
        access_token <- lift (get (snd response) "access_token") ;;
        expires_in <- lift (get (snd response) "expires_in") ;;
        setItem "access_token" (to_string access_token) ;;
        now <- Date_now ;;
        setItem "token_expiry" (expiry_text now expires_in) ;;
        ret access_token)
       (fun error =>
          if isAxiosError error then
            throw (Error (to_string
              (or_else (get_opt (response_data error) "error")
                       (VStr "Failed to refresh token"))))
          else throw error))%io.

Definition playing_request (token : value) : request :=
  Request "GET" (SPOTIFY_API_URL +:+ "/me/player/currently-playing")
    [("Authorization", "Bearer " +:+ to_string token)] NoBody.

(** [token_expiry && Date.now() > parseInt(token_expiry)]. *)
Definition expired (token_expiry : value) : M bool :=
  (if truthy token_expiry then
     now <- Date_now ;;
     ret (gt (Some now) (parseInt (to_string token_expiry)))
   else ret false)%io.

Definition getCurrentlyPlaying : M value :=
  (access_token <- getItem "access_token" ;;
   token_expiry <- getItem "token_expiry" ;;
   if falsy access_token then throw (Error "No access token available")
   else
     stale <- expired token_expiry ;;
     (if stale : bool then
        try_catch (refreshAccessToken ;; ret tt) (fun error => throw error)
      else ret tt) ;;
     try_catch
       (response <- send (playing_request access_token) ;;
        ret (snd response))
       (fun error =>
          if isAxiosError error
             && match response_status error with
                | VNum 401 => true
                | _ => false
                end
          then
            try_catch
              (newToken <- refreshAccessToken ;;
               response <- send (playing_request newToken) ;;
               ret (snd response))
              (fun refreshError => throw refreshError)
          else ret VNull))%io.

End WithNetwork.

End Spotify.

(* ===================================================================== *)
(** ** [src/App.tsx]: PKCE generator and the React component *)
(* ===================================================================== *)

Module App.
Import JS Http.





Definition generateCodeChallenge (verifier : string) : string :=
  let data := Str.bytes verifier in
  let digest := SHA256.digest data in
  let base64 := Enc.btoa (Str.of_bytes digest) in
  Str.strip_trailing "=" (Str.replace_all "/" "_" (Str.replace_all "+" "-" base64)).

(** The four [useState] cells. *)
Record state : Type := State {
  track : value;
  isLoading : bool;
  isAuthenticated : bool;
  accessToken : value
}.

Definition setTrack (v : value) (s : state) : state :=
  State v (isLoading s) (isAuthenticated s) (accessToken s).
Definition setIsLoading (b : bool) (s : state) : state :=
  State (track s) b (isAuthenticated s) (accessToken s).
Definition setIsAuthenticated (b : bool) (s : state) : state :=
  State (track s) (isLoading s) b (accessToken s).
Definition setAccessToken (v : value) (s : state) : state :=
  State (track s) (isLoading s) (isAuthenticated s) v.

(** What an interval callback holds of the render that created it: the
    [accessToken] it passes on and the [isLoading] that its
    [validateAndFetchTrack] reads in [finally]. *)
Record closure : Type := Closure {
  captured_token : value;
  captured_isLoading : bool
}.

(** A call suspended at its [await fetch(...)]. *)
Inductive pending : Type :=
| AwaitValidate (isLoading_then : bool)
| AwaitExchange.

(** The polling effect as React keeps it between renders: the dependency
    values of its last run and the [intervalId] its cleanup closes over. *)
Record effect : Type := Effect {
  deps : bool * value;
  intervalId : option nat
}.

(** The page: component state, both storages, the interval table of the
    window, the requests sent and the calls awaiting an answer. *)
Record page : Type := Page {
  st : state;
  localStorage : gmap string string;
  sessionStorage : gmap string string;
  mounted : bool;
  polling : option effect;
  timers : gmap nat closure;
  next_timer : nat;
  requests : list request;
  awaiting : list pending
}.

(** A state setter: React drops updates of a component that is gone. *)
Definition update (f : state -> state) (p : page) : page :=
  if mounted p then
    Page (f (st p)) (localStorage p) (sessionStorage p) (mounted p) (polling p)
         (timers p) (next_timer p) (requests p) (awaiting p)
  else p.

Definition local_removeItem (k : string) (p : page) : page :=
  Page (st p) (delete k (localStorage p)) (sessionStorage p) (mounted p) (polling p)
       (timers p) (next_timer p) (requests p) (awaiting p).

Definition local_setItem (k v : string) (p : page) : page :=
  Page (st p) (<[k := v]> (localStorage p)) (sessionStorage p) (mounted p) (polling p)
       (timers p) (next_timer p) (requests p) (awaiting p).

Definition session_removeItem (k : string) (p : page) : page :=
  Page (st p) (localStorage p) (delete k (sessionStorage p)) (mounted p) (polling p)
       (timers p) (next_timer p) (requests p) (awaiting p).

Definition getItem (store : gmap string string) (k : string) : value :=
  match store !! k with
  | Some s => VStr s
  | None => VNull
  end.

(** [fetch(...)]: the request leaves and the caller is suspended. *)
Definition fetch (req : request) (who : pending) (p : page) : page :=
  Page (st p) (localStorage p) (sessionStorage p) (mounted p) (polling p)
       (timers p) (next_timer p) (requests p ++ [req]) (awaiting p ++ [who]).

Definition clearAuth (p : page) : page :=
  update (setTrack VNull)
    (update (setIsAuthenticated false)
       (update (setAccessToken VNull)
          (session_removeItem "spotify_code_verifier"
             (local_removeItem "spotify_access_token" p)))).

Section WithBackend.
(** [import.meta.env.VITE_BACKEND_URL]. *)
Variable backend : string.

Definition track_request (token : value) : request :=
  Request "GET" (backend +:+ "/current-track")
    [("Authorization", "Bearer " +:+ to_string token)] NoBody.

(** [validateAndFetchTrack] up to its [await fetch]. *)
Definition validate_start (isLoading_then : bool) (token : value) (p : page) : page :=
  if falsy token then update (setIsLoading false) (clearAuth p)
  else fetch (track_request token) (AwaitValidate isLoading_then) p.

(** [contentType && contentType.indexOf("application/json") !== -1]. *)
Definition is_json (contentType : option string) : bool :=
  match contentType with
  | Some t => negb (String.eqb t "")
              && match String.index 0 "application/json" t with
                 | Some _ => true
                 | None => false
                 end
  | None => false
  end.

(** The [try] of [validateAndFetchTrack] from the answer on; [None] stands
    for an exception reaching its [catch]. *)
Definition validate_try (r : reply) (p : page) : option page :=
  match r with
  | NetworkFailure _ => None
  | Reply status contentType c =>
      if status =? 401 then Some (clearAuth p)
      else if status =? 204 then
        Some (update (setIsAuthenticated true) (update (setTrack VNull) p))
      else if negb (ok status) then None
      else if is_json contentType then
        match json c with
        | Throw _ => None
        | Ok data =>
            if truthy data && truthy (get_opt data "name") then
              Some (update (setIsAuthenticated true) (update (setTrack data) p))
            else
              Some (update (setIsAuthenticated true) (update (setTrack VNull) p))
        end
      else Some (update (setIsAuthenticated true) (update (setTrack VNull) p))
  end.

(** [validateAndFetchTrack] from the answer to its end: [try], [catch] and
    [finally]. *)
Definition validate_resume (isLoading_then : bool) (r : reply) (p : page) : page :=
  let p1 := match validate_try r p with
            | Some p' => p'
            | None => clearAuth p
            end in
  if isLoading_then then update (setIsLoading false) p1 else p1.

Definition exchange_request (authCode verifier : value) : request :=
  Request "POST" (backend +:+ "/exchange-token")
    [("Content-Type", "application/json")]
    (JsonBody (VObj [("code", authCode); ("code_verifier", verifier)])).

(** [exchangeCodeForToken] up to its [await fetch]. *)
Definition exchange_start (authCode : value) (p : page) : page :=
  let verifier := getItem (sessionStorage p) "spotify_code_verifier" in
  if falsy verifier then update (setIsLoading false) (clearAuth p)
  else fetch (exchange_request authCode verifier) AwaitExchange p.

(** [exchangeCodeForToken] from the answer on.  It runs in the closure of
    the first render, where [isLoading] is [true]. *)
Definition exchange_resume (r : reply) (p : page) : page :=
  match r with
  | NetworkFailure _ => clearAuth p
  | Reply status _ c =>
      let p1 := session_removeItem "spotify_code_verifier" p in
      if negb (ok status) then clearAuth p1
      else match (v <- json c ;; get v "access_token")%js with
           | Throw _ => clearAuth p1
           | Ok access_token =>
               validate_start true access_token
                 (update (setIsAuthenticated true)
                    (update (setAccessToken access_token)
                       (local_setItem "spotify_access_token" (to_string access_token) p1)))
           end
  end.

(** The polling effect's cleanup, [if (intervalId) clearInterval(intervalId)],
    and its body.  [setInterval] hands out the ids 1, 2, ... *)
Definition clearInterval (id : option nat) (p : page) : page :=
  match id with
  | Some (S i) =>
      Page (st p) (localStorage p) (sessionStorage p) (mounted p) (polling p)
           (delete (S i) (timers p)) (next_timer p) (requests p) (awaiting p)
  | _ => p
  end.

Definition run_polling (p : page) : page :=
  let s := st p in
  if isAuthenticated s && truthy (accessToken s) then
    let id := next_timer p in
    Page s (localStorage p) (sessionStorage p) (mounted p)
         (Some (Effect (isAuthenticated s, accessToken s) (Some id)))
         (<[id := Closure (accessToken s) (isLoading s)]> (timers p))
         (S id) (requests p) (awaiting p)
  else
    Page s (localStorage p) (sessionStorage p) (mounted p)
         (Some (Effect (isAuthenticated s, accessToken s) None))
         (timers p) (next_timer p) (requests p) (awaiting p).

Definition same_deps (a b : bool * value) : bool :=
  Bool.eqb (fst a) (fst b) && same (snd a) (snd b).

(** After a render React runs the polling effect when it never ran or when
    [isAuthenticated] or [accessToken] changed: first the cleanup of the
    previous run, then the body. *)
Definition commit (p : page) : page :=
  if mounted p then
    match polling p with
    | None => run_polling p
    | Some e =>
        if same_deps (deps e) (isAuthenticated (st p), accessToken (st p)) then p
        else run_polling (clearInterval (intervalId e) p)
    end
  else p.

Definition initial : state := State VNull true false VNull.

(** The first effect, run once after the first render. *)
Definition startup (code : value) (p : page) : page :=
  if truthy code then exchange_start code p
  else
    let storedToken := getItem (localStorage p) "spotify_access_token" in
    if truthy storedToken then
      validate_start true storedToken
        (update (setIsAuthenticated true) (update (setAccessToken storedToken) p))
    else update (setIsLoading false) (update (setIsAuthenticated false) p).

(** Loading the page with [?code=] as [code] ([null] when absent) and the
    storages as the browser kept them: first render, both effects in order
    (the polling effect still sees the first render), then the render that
    the first effect's updates ask for.  Interval ids start at 1. *)
Definition mount (code : value) (local session : gmap string string) : page :=
  let p0 := Page initial local session true None ∅ 1 [] [] in
  commit (startup code (run_polling p0)).

(** What can happen next to a page. *)
Inductive event : Type :=
| Tick (id : nat)
| Settle (i : nat) (r : reply)
| Disconnect
| Unmount.

Definition drop_awaiting (i : nat) (p : page) : page :=
  Page (st p) (localStorage p) (sessionStorage p) (mounted p) (polling p)
       (timers p) (next_timer p) (requests p)
       (take i (awaiting p) ++ drop (S i) (awaiting p)).

Definition unmount (p : page) : page :=
  let p1 := match polling p with
            | Some e => clearInterval (intervalId e) p
            | None => p
            end in
  Page (st p1) (localStorage p1) (sessionStorage p1) false None
       (timers p1) (next_timer p1) (requests p1) (awaiting p1).

(** One event; [None] when it cannot happen in this page: an interval that
    is not set does not tick, a call that is not suspended gets no answer,
    the Disconnect button exists only in the authenticated views.  An event
    runs its callback up to the next [await] or to its end, and React then
    renders and runs the effects, before the next event. *)
Definition step (ev : event) (p : page) : option page :=
  match ev with
  | Tick id =>
      match timers p !! id with
      | Some c => Some (commit (validate_start (captured_isLoading c) (captured_token c) p))
      | None => None
      end
  | Settle i r =>
      match awaiting p !! i with
      | Some (AwaitValidate l) => Some (commit (validate_resume l r (drop_awaiting i p)))
      | Some AwaitExchange => Some (commit (exchange_resume r (drop_awaiting i p)))
      | None => None
      end
  | Disconnect =>
      if mounted p && negb (isLoading (st p)) && isAuthenticated (st p)
      then Some (commit (clearAuth p)) else None
  | Unmount => if mounted p then Some (unmount p) else None
  end.

Fixpoint run (evs : list event) (p : page) : option page :=
  match evs with
  | [] => Some p
  | ev :: rest => match step ev p with
                  | Some p' => run rest p'
                  | None => None
                  end
  end.

End WithBackend.

Definition is_tick (ev : event) : bool :=
  match ev with
  | Tick _ => true
  | _ => false
  end.

End App.

(* ===================================================================== *)
(** ** The remaining entry points of the client *)
(* ===================================================================== *)

Module Login.
Import JS Http Spotify.



(** [getSpotifyAuthUrl] of [utils/spotify.ts], with the two entries of
    [import.meta.env] it reads. *)
Definition getSpotifyAuthUrl (VITE_SPOTIFY_CLIENT_ID VITE_SPOTIFY_REDIRECT_URI : value)
    (source : nat -> Z) : Spotify.M string :=
  (codeVerifier <- Spotify.generateCodeVerifier source ;;
   let codeChallenge := Spotify.generateCodeChallenge codeVerifier in
   let params := search_params
     [("response_type", "code");
      ("client_id", to_string VITE_SPOTIFY_CLIENT_ID);
      ("scope", "user-read-currently-playing");
      ("redirect_uri", to_string VITE_SPOTIFY_REDIRECT_URI);
      ("code_challenge_method", "S256");
      ("code_challenge", codeChallenge)] in
   Spotify.ret ("https://accounts.spotify.com/authorize" +:+ "?" +:+ params))%io.

(** [handleCallback] of [components/CallbackHandler.tsx] for the [code] of
    the address ([null] when absent): the address the window is sent to, if
    any. *)
Definition handleCallback (net : Spotify.network) (code : value)
    : Spotify.M (option string) :=
  if truthy code then
    Spotify.try_catch
      (response <- Spotify.send net
                     (Request "GET" ("http://localhost:3000/callback?code=" +:+ to_string code)
                        [] NoBody) ;;
       access_token <- Spotify.lift (get (snd response) "access_token") ;;
       Spotify.setItem "access_token" (to_string access_token) ;;
       Spotify.ret (Some "/"))%io
      (fun error => Spotify.ret (Some "/"))
  else Spotify.ret None.

End Login.

(* ===================================================================== *)
(** ** The component talking to the track proxy *)
(* ===================================================================== *)

Module Wire.
Import JS Http.

(** What Express puts on the wire for a handler's response: [res.json]
    sends the value as JSON, [res.send()] an empty body, [res.redirect] a
    302. *)
Definition reply_of (r : Server.response) : reply :=
  match r with
  | Server.Json status body =>
      Reply status (Some "application/json; charset=utf-8") (Parsed body)
  | Server.Send status => Reply status None (Raw "")
  | Server.Redirect _ => Reply 302 None (Raw "")
  end.

(** [req.headers.authorization] of a request as the component builds it. *)
Definition authorization (req : request) : option string :=
  match headers req with
  | [("Authorization", h)] => Some h
  | _ => None
  end.

(** The answer of [GET /current-track] to a request of the component. *)
Definition current_track (provider : request -> reply) (req : request) : reply :=
  reply_of (Server.sent (Server.current_track provider (authorization req))).

End Wire.

(* ===================================================================== *)
(** ** The specification's words, for comparison with the code *)
(* ===================================================================== *)

Module Spec.

(** The URL-safe alphabet of RFC 4648, section 5. *)
Definition url_alphabet : string :=
  "ABCDEFGHIJKLMNOPQRSTUVWXYZabcdefghijklmnopqrstuvwxyz0123456789-_".

Definition url_sextet (i : Z) : ascii :=
  match String.get (Z.to_nat (i mod 64)) url_alphabet with
  | Some c => c
  | None => "A"%char
  end.

(** URL-safe Base64 without padding, written directly: no [+], [/] or [=]
    is ever produced and then replaced. *)
Fixpoint base64url (bs : list Z) : string :=
  match bs with
  | [] => ""
  | [a] =>
      String (url_sextet (Z.shiftr a 2))
        (String (url_sextet (Z.shiftl (Z.land a 3) 4)) "")
  | [a; b] =>
      String (url_sextet (Z.shiftr a 2))
        (String (url_sextet (Z.lor (Z.shiftl (Z.land a 3) 4) (Z.shiftr b 4)))
           (String (url_sextet (Z.shiftl (Z.land b 15) 2)) ""))
  | a :: b :: c :: r =>
      String (url_sextet (Z.shiftr a 2))
        (String (url_sextet (Z.lor (Z.shiftl (Z.land a 3) 4) (Z.shiftr b 4)))
           (String (url_sextet (Z.lor (Z.shiftl (Z.land b 15) 2) (Z.shiftr c 6)))
              (String (url_sextet (Z.land c 63)) (base64url r))))
  end.

(** "URL-safe base64 of SHA-256(v)". *)
Definition derive_challenge (verifier : string) : string :=
  base64url (SHA256.digest (Str.bytes verifier)).

(** The unreserved characters of a URL (RFC 3986), the alphabet a PKCE
    verifier may use (RFC 7636): letters, digits, [-], [.], [_], [~]. *)
Definition url_safe (a : ascii) : bool :=
  Http.alnum a || Str.mem a "-._~".

End Spec.

(* ===================================================================== *)
(** ** Vocabulary of the proofs *)
(* ===================================================================== *)

(** One character through both replacements of the challenge derivation. *)
Definition tr_char (a : ascii) : ascii :=
  let b := if Ascii.eqb a "+" then "-"%char else a in
  if Ascii.eqb b "/" then "_"%char else b.

(** A request header carries no bearer token: it is absent, or it has no
    space, or nothing stands between its first space and the next one (or
    the end). *)
Definition no_bearer_token (authorization : option string) : Prop :=
  match authorization with
  | None => True
  | Some h =>
      Str.mem " " h = false
      \/ exists scheme rest,
           h = scheme +:+ String " " rest
           /\ Str.mem " " scheme = false
           /\ (rest = "" \/ exists r, rest = String " " r)
  end.

(** A field of a request is absent or empty. *)
Definition absent_or_empty (v : JS.value) : Prop :=
  v = JS.VUndefined \/ v = JS.VStr "".



(** A currently-playing payload whose item has every field but no album
    image. *)
Definition track_without_art (name artist album : string) (is_playing : bool) : JS.value :=
  JS.VObj
    [("item", JS.VObj
       [("name", JS.VStr name);
        ("artists", JS.VArr [JS.VObj [("name", JS.VStr artist)]]);
        ("album", JS.VObj [("name", JS.VStr album); ("images", JS.VArr [])])]);
     ("is_playing", JS.VBool is_playing)].

(** A computation of the helper leaves the entry [k] of durable storage as
    it found it, however it ends. *)
Definition keeps {A} (k : string) (m : Spotify.M A) : Prop :=
  forall w, Spotify.localStorage (snd (m w)) !! k = Spotify.localStorage w !! k.

(** A computation of the helper only adds to the requests sent. *)
Definition extends {A} (m : Spotify.M A) : Prop :=
  forall w, exists more, Spotify.sent (snd (m w)) = (Spotify.sent w ++ more)%list.

(** Scenario: the stored token has expired, the refresh answers with a new
    access token and no refresh token, the player endpoint answers 200. *)
Definition expired_world : Spotify.world :=
  Spotify.World
    (<["access_token" := "old"]>
       (<["token_expiry" := "1000"]> (<["refresh_token" := "RT1"]> ∅)))
    [].

Definition refreshing_network : Spotify.network :=
  Spotify.Network
    (fun _ req =>
       if String.eqb (Http.method req) "POST" then
         Http.Reply 200 (Some "application/json")
           (Http.Parsed (JS.VObj [("access_token", JS.VStr "new");
                                  ("expires_in", JS.VNum 3600)]))
       else Http.Reply 200 (Some "application/json")
              (Http.Parsed (JS.VObj [("is_playing", JS.VBool false)])))
    (fun _ => 2000).

(** Scenario: the player endpoint answers 401 to the first request and 200
    afterwards; the refresh in between succeeds. *)
Definition valid_world : Spotify.world :=
  Spotify.World (<["access_token" := "old"]> (<["refresh_token" := "RT1"]> ∅)) [].

Definition revoking_network : Spotify.network :=
  Spotify.Network
    (fun history req =>
       match history with
       | [] => Http.Reply 401 (Some "application/json")
                 (Http.Parsed (JS.VObj [("error", JS.VStr "expired")]))
       | _ => Spotify.respond refreshing_network history req
       end)
    (fun _ => 2000).

(** Two pages agree on what the polling effect owns: the effect record,
    the interval table, the id counter and whether the component is there. *)
Definition same_polling (p q : App.page) : Prop :=
  App.polling q = App.polling p
  /\ App.timers q = App.timers p
  /\ App.next_timer q = App.next_timer p
  /\ App.mounted q = App.mounted p.

(** The interval table holds exactly the interval of the polling effect's
    last run, and that run set one only when it saw an authenticated state
    with a token. *)
Definition timers_tracked (p : App.page) : Prop :=
  (0 < App.next_timer p)%nat
  /\ match App.polling p with
     | Some e =>
         App.mounted p = true
         /\ match App.intervalId e with
            | Some id =>
                (0 < id)%nat
                /\ (exists c, App.timers p = {[id := c]})
                /\ fst (App.deps e) = true
                /\ JS.truthy (snd (App.deps e)) = true
            | None => App.timers p = ∅
            end
     | None => App.timers p = ∅
     end.

(** The polling effect has run for the current state. *)
Definition synced (p : App.page) : Prop :=
  match App.polling p with
  | Some e => App.deps e = (App.isAuthenticated (App.st p), App.accessToken (App.st p))
  | None => App.mounted p = false
  end.

Definition settled (p : App.page) : Prop := timers_tracked p /\ synced p.

(** The token exchange, while awaited, is the only suspended call, and the
    component is not authenticated. *)
Definition exchange_alone (p : App.page) : Prop :=
  In App.AwaitExchange (App.awaiting p) ->
  App.awaiting p = [App.AwaitExchange]
  /\ (App.mounted p = true -> App.isAuthenticated (App.st p) = false).

(** Nothing can start polling again: the component is gone, or it holds no
    token and awaits no exchange. *)
Definition quiet (p : App.page) : Prop :=
  settled p
  /\ (App.mounted p = false
      \/ (App.accessToken (App.st p) = JS.VNull
          /\ ~ In App.AwaitExchange (App.awaiting p))).

(** The component is torn down, or Invalid: not authenticated, no token. *)
Definition stopped (p : App.page) : Prop :=
  App.mounted p = false
  \/ (App.isAuthenticated (App.st p) = false /\ App.accessToken (App.st p) = JS.VNull).

(** From [p] to [q] no token appeared, and the calls newly suspended are
    validations. *)
Definition keeps_null (p q : App.page) : Prop :=
  App.accessToken (App.st p) = JS.VNull -> App.accessToken (App.st q) = JS.VNull.

Definition adds_validations (p q : App.page) : Prop :=
  forall x, In x (App.awaiting q) ->
            In x (App.awaiting p) \/ exists l, x = App.AwaitValidate l.

Definition calm (p q : App.page) : Prop := keeps_null p q /\ adds_validations p q.

(** The pages a session can be in: loaded, then any events. *)
Definition reachable (backend : string) (p : App.page) : Prop :=
  exists code local session evs,
    App.run backend evs (App.mount backend code local session) = Some p.

(** Scenario: the page is loaded with an access token in durable storage. *)
Definition returning_session : App.page :=
  App.mount "http://localhost:3000" JS.VNull (<["spotify_access_token" := "AT1"]> ∅) ∅.

Definition song : Http.reply :=
  Http.Reply 200 (Some "application/json; charset=utf-8")
    (Http.Parsed (JS.VObj [("name", JS.VStr "Song"); ("artist", JS.VStr "Band");
                           ("album", JS.VStr "Album"); ("albumArt", JS.VStr "http://img");
                           ("isPlaying", JS.VBool true)])).

Definition unauthorized : Http.reply :=
  Http.Reply 401 (Some "application/json; charset=utf-8")
    (Http.Parsed (JS.VObj [("error", JS.VStr "Spotify API error during track fetch")])).

(** The number of occurrences of a character. *)
Fixpoint count (c : ascii) (s : string) : nat :=
  match s with
  | "" => 0%nat
  | String a r => ((if Ascii.eqb a c then 1 else 0) + count c r)%nat
  end.

(** The characters a form-urlencoded text and a percent-encoded component
    consist of. *)
Definition form_safe (a : ascii) : bool := Http.alnum a || Str.mem a "*-._+%".
Definition uri_safe (a : ascii) : bool := Http.uri_unreserved a || Ascii.eqb a "%".

(** The characters of the URL-safe Base64 alphabet. *)
Definition base64url_char (a : ascii) : bool := Http.alnum a || Str.mem a "-_".

(** The error bodies of the two proxying handlers. *)
Definition exchange_error (details : JS.value) : JS.value :=
  JS.VObj [("error", JS.VStr "Failed to exchange code for token"); ("details", details)].

Definition track_error (details : JS.value) : JS.value :=
  JS.VObj [("error", JS.VStr "Spotify API error during track fetch"); ("details", details)].


(** An entry of durable storage is missing or empty. *)
Definition missing (w : Spotify.world) (k : string) : Prop :=
  Spotify.localStorage w !! k = None \/ Spotify.localStorage w !! k = Some "".

(** A computation of the helper sends at most [n] requests. *)
Definition sends_at_most {A} (n : nat) (m : Spotify.M A) : Prop :=
  forall w, exists more,
    Spotify.sent (snd (m w)) = (Spotify.sent w ++ more)%list
    /\ (List.length more <= n)%nat.


(** A fetch of the component fails: the transport fails, or the answer is
    outside 2xx. *)
Definition fetch_fails (r : Http.reply) : Prop :=
  match r with
  | Http.NetworkFailure _ => True
  | Http.Reply status _ _ => Http.ok status = false
  end.

(** The component after [clearAuth]: Invalid, with both storages cleared. *)
Definition logged_out (p : App.page) : Prop :=
  App.accessToken (App.st p) = JS.VNull
  /\ App.isAuthenticated (App.st p) = false
  /\ App.track (App.st p) = JS.VNull
  /\ App.localStorage p !! "spotify_access_token" = None
  /\ App.sessionStorage p !! "spotify_code_verifier" = None.

(** The interval of the polling effect's last run calls back with the
    token that run saw. *)
Definition polling_current (p : App.page) : Prop :=
  match App.polling p with
  | Some e =>
      match App.intervalId e with
      | Some id => exists l, App.timers p = {[id := App.Closure (snd (App.deps e)) l]}
      | None => fst (App.deps e) && JS.truthy (snd (App.deps e)) = false
      end
  | None => True
  end.

(** While the component is there, a token it holds is the token in durable
    storage. *)
Definition token_stored (p : App.page) : Prop :=
  App.mounted p = true ->
  App.accessToken (App.st p) <> JS.VNull ->
  App.localStorage p !! "spotify_access_token"
  = Some (JS.to_string (App.accessToken (App.st p))).



(* ===================================================================== *)
(** * Properties *)
(* ===================================================================== *)

(** ** Reference vectors *)

Example sha256_abc :
  Enc.hex (SHA256.digest (Str.bytes "abc"))
  = "ba7816bf8f01cfea414140de5dae2223b00361a396177a9cb410ff61f20015ad".
Proof. vm_compute. reflexivity. Qed.

Example sha256_test :
  Enc.hex (SHA256.digest (Str.bytes "test"))
  = "9f86d081884c7d659a2feaa0c55ad015a3bf4f1b2b0b822cd15d6c15b0f00a08".
Proof. vm_compute. reflexivity. Qed.

Example sha256_constants :
  nth 0 SHA256.K 0 = 0x428a2f98 /\ nth 63 SHA256.K 0 = 0xc67178f2
  /\ nth 0 SHA256.H0 0 = 0x6a09e667 /\ nth 7 SHA256.H0 0 = 0x5be0cd19.
Proof. vm_compute. auto. Qed.

Example base64_foobar : Enc.btoa "foobar" = "Zm9vYmFy" /\ Enc.btoa "fo" = "Zm8=" /\ Enc.btoa "f" = "Zg==".
Proof. vm_compute. auto. Qed.
(** ** Strings *)

Lemma mem_replace_all_same (c d : ascii) (s : string) :
  d <> c -> Str.mem c (Str.replace_all c d s) = false.
Proof.
  intros Hd. induction s as [|a r IH]; simpl; [reflexivity|].
  rewrite IH, orb_false_r.
  destruct (Ascii.eqb a c) eqn:E.
  - apply Ascii.eqb_neq. exact Hd.
  - exact E.
Qed.

Lemma mem_replace_all_other (c c' d : ascii) (s : string) :
  d <> c -> Str.mem c s = false -> Str.mem c (Str.replace_all c' d s) = false.
Proof.
  intros Hd. induction s as [|a r IH]; simpl; [reflexivity|].
  intros H. apply orb_false_iff in H as [Ha Hr].
  rewrite (IH Hr), orb_false_r.
  destruct (Ascii.eqb a c'); [apply Ascii.eqb_neq; exact Hd | exact Ha].
Qed.

Lemma mem_strip_trailing (c x : ascii) (s : string) :
  Str.mem c s = false -> Str.mem c (Str.strip_trailing x s) = false.
Proof.
  induction s as [|a r IH]; simpl; [reflexivity|].
  intros H. apply orb_false_iff in H as [Ha Hr].
  destruct (Ascii.eqb a x && String.eqb (Str.strip_trailing x r) ""); simpl;
    [reflexivity|].
  rewrite Ha. simpl. apply IH. exact Hr.
Qed.

Lemma last_strip_trailing (c : ascii) (s : string) :
  Str.last (Str.strip_trailing c s) <> Some c.
Proof.
  induction s as [|a r IH]; simpl; [discriminate|].
  destruct (Ascii.eqb a c) eqn:Ea; simpl.
  - destruct (String.eqb (Str.strip_trailing c r) "") eqn:Er; simpl; [discriminate|].
    destruct (Str.strip_trailing c r) as [|b t] eqn:Es; [discriminate|].
    exact IH.
  - destruct (Str.strip_trailing c r) as [|b t] eqn:Es.
    + simpl. intros [= ->]. rewrite Ascii.eqb_refl in Ea. discriminate.
    + exact IH.
Qed.

Lemma strip_trailing_cons (c a : ascii) (s : string) :
  Str.strip_trailing c s <> "" ->
  Str.strip_trailing c (String a s) = String a (Str.strip_trailing c s).
Proof.
  intros H. simpl.
  destruct (Str.strip_trailing c s); [contradiction|].
  rewrite andb_false_r. reflexivity.
Qed.

Lemma strip_trailing_keep (c a : ascii) (s : string) :
  a <> c ->
  Str.strip_trailing c (String a s) = String a (Str.strip_trailing c s).
Proof.
  intros H. simpl. apply Ascii.eqb_neq in H. rewrite H. reflexivity.
Qed.


Lemma forallb_append (p : ascii -> bool) (s t : string) :
  Str.forallb p (s +:+ t) = Str.forallb p s && Str.forallb p t.
Proof.
  induction s as [|a r IH]; simpl; [reflexivity|].
  rewrite IH, andb_assoc. reflexivity.
Qed.

Lemma get_in_range (n : nat) (s : string) :
  (n < String.length s)%nat -> exists c, String.get n s = Some c.
Proof.
  revert n. induction s as [|a r IH]; simpl; intros n H; [lia|].
  destruct n as [|m]; [eauto|]. apply IH. lia.
Qed.

Lemma get_forallb (p : ascii -> bool) (n : nat) (s : string) (c : ascii) :
  Str.forallb p s = true -> String.get n s = Some c -> p c = true.
Proof.
  revert n. induction s as [|a r IH]; simpl; intros n H G; [discriminate|].
  apply andb_true_iff in H as [Ha Hr].
  destruct n as [|m]; [injection G as <-; exact Ha | eapply IH; eauto].
Qed.

(** ** Base64 against its URL-safe form *)

Lemma replace_chain_cons (a : ascii) (s : string) :
  Str.replace_all "/" "_" (Str.replace_all "+" "-" (String a s))
  = String (tr_char a) (Str.replace_all "/" "_" (Str.replace_all "+" "-" s)).
Proof. reflexivity. Qed.

Lemma alphabet_tr (n : nat) :
  (n < 64)%nat ->
  exists c, String.get n Enc.alphabet = Some c
            /\ String.get n Spec.url_alphabet = Some (tr_char c)
            /\ tr_char c <> "="%char.
Proof.
  intros H.
  do 64 (destruct n as [|n]; [eexists; repeat split; discriminate|]).
  lia.
Qed.

Lemma sextet_tr (i : Z) :
  tr_char (Enc.sextet i) = Spec.url_sextet i /\ Spec.url_sextet i <> "="%char.
Proof.
  unfold Enc.sextet, Spec.url_sextet.
  destruct (alphabet_tr (Z.to_nat (i mod 64))) as (c & -> & -> & Hc).
  - pose proof (Z.mod_pos_bound i 64). lia.
  - split; [reflexivity | exact Hc].
Qed.

Lemma list_ind3 {A} (P : list A -> Prop) :
  P [] -> (forall a, P [a]) -> (forall a b, P [a; b]) ->
  (forall a b c r, P r -> P (a :: b :: c :: r)) ->
  forall l, P l.
Proof.
  intros H0 H1 H2 H3.
  fix IH 1. intros [|a [|b [|c r]]]; [exact H0 | apply H1 | apply H2 |].
  apply H3. apply IH.
Qed.

Lemma replace_strip_base64 (bs : list Z) :
  Str.strip_trailing "="
    (Str.replace_all "/" "_" (Str.replace_all "+" "-" (Enc.base64 bs)))
  = Spec.base64url bs.
Proof.
  induction bs as [|a|a b|a b c r IH] using list_ind3.
  - reflexivity.
  - cbn [Enc.base64 Spec.base64url]. rewrite !replace_chain_cons.
    rewrite !strip_trailing_keep by
      (rewrite (proj1 (sextet_tr _)); apply (proj2 (sextet_tr _))).
    rewrite !(proj1 (sextet_tr _)). reflexivity.
  - cbn [Enc.base64 Spec.base64url]. rewrite !replace_chain_cons.
    rewrite !strip_trailing_keep by
      (rewrite (proj1 (sextet_tr _)); apply (proj2 (sextet_tr _))).
    rewrite !(proj1 (sextet_tr _)). reflexivity.
  - cbn [Enc.base64 Spec.base64url]. rewrite !replace_chain_cons.
    rewrite !strip_trailing_keep by
      (rewrite (proj1 (sextet_tr _)); apply (proj2 (sextet_tr _))).
    rewrite !(proj1 (sextet_tr _)), IH. reflexivity.
Qed.

Lemma bytes_of_bytes (l : list Z) :
  Str.bytes (Str.of_bytes l) = map (fun b => b mod 256) l.
Proof.
  unfold Str.bytes, Str.of_bytes.
  rewrite list_ascii_of_string_of_list_ascii, List.map_map.
  apply List.map_ext. intros b.
  rewrite N_ascii_embedding.
  - apply Z2N.id. apply Z.mod_pos_bound. lia.
  - pose proof (Z.mod_pos_bound b 256). lia.
Qed.

Lemma be_bytes_reduced (n : nat) (x : Z) :
  map (fun b => b mod 256) (SHA256.be_bytes n x) = SHA256.be_bytes n x.
Proof.
  unfold SHA256.be_bytes. rewrite List.map_map.
  apply List.map_ext. intros i. apply Z.mod_mod. lia.
Qed.

Lemma digest_reduced (msg : list Z) :
  map (fun b => b mod 256) (SHA256.digest msg) = SHA256.digest msg.
Proof.
  unfold SHA256.digest.
  generalize (fold_left SHA256.compress
                (SHA256.blocks (List.length (SHA256.pad msg)) (SHA256.pad msg))
                SHA256.H0).
  intros h. induction h as [|x h IH]; [reflexivity|].
  cbn [List.map List.concat]. rewrite List.map_app, be_bytes_reduced, IH.
  reflexivity.
Qed.

(** ** C3: challenge derivation *)

(** C3.  For every verifier [v], both challenge derivations of the sources
    ([App.tsx] and [utils/spotify.ts]) are functions of [v] alone and return
    the unpadded URL-safe Base64 of SHA-256 of [v]'s bytes; the result
    contains no [+], no [/], and does not end in [=]. *)
Theorem generateCodeChallenge_spec (v : string) :
  App.generateCodeChallenge v = Spec.derive_challenge v
  /\ Spotify.generateCodeChallenge v = Spec.derive_challenge v
  /\ Str.mem "+" (App.generateCodeChallenge v) = false
  /\ Str.mem "/" (App.generateCodeChallenge v) = false
  /\ Str.last (App.generateCodeChallenge v) <> Some "="%char.
Proof.
  assert (Hs : Spotify.generateCodeChallenge v = Spec.derive_challenge v).
  { unfold Spotify.generateCodeChallenge, Spec.derive_challenge.
    apply replace_strip_base64. }
  assert (Ha : App.generateCodeChallenge v = Spotify.generateCodeChallenge v).
  { unfold App.generateCodeChallenge, Spotify.generateCodeChallenge, Enc.btoa.
    rewrite bytes_of_bytes, digest_reduced. reflexivity. }
  split; [congruence|]. split; [exact Hs|].
  rewrite Ha. unfold Spotify.generateCodeChallenge.
  repeat split.
  - apply mem_strip_trailing, mem_replace_all_other; [discriminate|].
    apply mem_replace_all_same. discriminate.
  - apply mem_strip_trailing, mem_replace_all_same. discriminate.
  - apply last_strip_trailing.
Qed.

(** The scenario of the specification: the challenge of ["test"]. *)
Example challenge_of_test :
  App.generateCodeChallenge "test" = "n4bQgYhMfWWaL-qgxVrQFaO_TxsrC4Is0V1sFbDwCgg".
Proof. vm_compute. reflexivity. Qed.

(** ** C7: the verifier generators *)





Lemma hex_digit_url_safe (i : Z) : Spec.url_safe (Enc.hex_digit i) = true.
Proof.
  unfold Enc.hex_digit.
  destruct (get_in_range (Z.to_nat (i mod 16)) "0123456789abcdef") as [c Hc].
  - pose proof (Z.mod_pos_bound i 16). simpl. lia.
  - rewrite Hc. eapply get_forallb; [|exact Hc]. reflexivity.
Qed.

Lemma hex_shape (bs : list Z) :
  String.length (Enc.hex bs) = (2 * List.length bs)%nat
  /\ Str.forallb Spec.url_safe (Enc.hex bs) = true.
Proof.
  induction bs as [|b r [IHl IHf]]; [split; reflexivity|].
  cbn [Enc.hex String.length Str.forallb List.length].
  rewrite IHl, IHf, !hex_digit_url_safe. split; [lia | reflexivity].
Qed.



(** ** C4: the exchanger's precondition *)

(** C4.  When [code] or [code_verifier] is absent from the body of
    [POST /exchange-token], or is the empty string, the handler answers 400
    with its missing-parameter error and has made no request to the
    provider. *)
Theorem exchange_token_missing_parameter
    (env : Server.environment) (provider : Http.request -> Http.reply)
    (body : list (string * JS.value)) :
  absent_or_empty (JS.field "code" body)
  \/ absent_or_empty (JS.field "code_verifier" body) ->
  Server.exchange_token env provider body
  = Server.Outcome
      (Server.Json 400
         (JS.VObj [("error", JS.VStr "Missing code or code_verifier in request body")]))
      [].
Proof.
  unfold Server.exchange_token, absent_or_empty.
  intros [[H|H]|[H|H]]; rewrite H; simpl; try reflexivity;
    rewrite orb_true_r; reflexivity.
Qed.

Lemma exchange_token_missing_parameter_witness :
  Server.exchange_token (Server.Environment (Some "id") (Some "secret") None None)
    (fun _ => Http.NetworkFailure "unreachable") [("code", JS.VStr "XYZ")]
  = Server.Outcome
      (Server.Json 400
         (JS.VObj [("error", JS.VStr "Missing code or code_verifier in request body")]))
      [].
Proof.
  apply exchange_token_missing_parameter. right. left. reflexivity.
Defined.

(** With both fields present the handler does call the provider, once. *)
Lemma exchange_token_calls_once
    (env : Server.environment) (provider : Http.request -> Http.reply)
    (body : list (string * JS.value)) :
  JS.truthy (JS.field "code" body) = true ->
  JS.truthy (JS.field "code_verifier" body) = true ->
  Server.calls (Server.exchange_token env provider body)
  = [Server.exchange_request env (JS.field "code" body) (JS.field "code_verifier" body)].
Proof.
  intros Hc Hv. unfold Server.exchange_token, JS.falsy. rewrite Hc, Hv. simpl.
  match goal with |- context [match ?a with JS.Ok _ => _ | JS.Throw _ => _ end] =>
    destruct a end; reflexivity.
Qed.

(** The specification's exchange scenario against a stubbed provider. *)
Example exchange_token_scenario :
  Server.sent
    (Server.exchange_token (Server.Environment (Some "id") (Some "secret") None None)
       (fun _ => Http.Reply 200 (Some "application/json")
                   (Http.Parsed (JS.VObj [("access_token", JS.VStr "AT1");
                                          ("expires_in", JS.VNum 3600);
                                          ("refresh_token", JS.VStr "RT1")])))
       [("code", JS.VStr "XYZ"); ("code_verifier", JS.VStr "V1")])
  = Server.Json 200 (JS.VObj [("access_token", JS.VStr "AT1");
                              ("expires_in", JS.VNum 3600);
                              ("refresh_token", JS.VStr "RT1")]).
Proof. reflexivity. Qed.

(** ** C10: the track proxy without a token *)

Lemma split_no_separator (c : ascii) (s : string) :
  Str.mem c s = false -> Str.split c s = [s].
Proof.
  induction s as [|a r IH]; simpl; [reflexivity|].
  intros H. apply orb_false_iff in H as [Ha Hr].
  rewrite Ha, (IH Hr). reflexivity.
Qed.

Lemma split_at_first (c : ascii) (scheme rest : string) :
  Str.mem c scheme = false ->
  Str.split c (scheme +:+ String c rest) = scheme :: Str.split c rest.
Proof.
  induction scheme as [|a r IH]; simpl.
  - intros _. rewrite Ascii.eqb_refl. reflexivity.
  - intros H. apply orb_false_iff in H as [Ha Hr].
    rewrite Ha, (IH Hr). reflexivity.
Qed.

Lemma bearer_token_missing (authorization : option string) :
  no_bearer_token authorization ->
  JS.falsy (Server.bearer_token authorization) = true.
Proof.
  destruct authorization as [h|]; [|reflexivity].
  intros [H | (scheme & rest & -> & Hs & Hr)]; unfold Server.bearer_token.
  - rewrite (split_no_separator _ _ H). reflexivity.
  - rewrite (split_at_first _ _ _ Hs).
    destruct Hr as [-> | [r ->]]; [reflexivity|].
    simpl. reflexivity.
Qed.

(** C10.  A [GET /current-track] request whose [Authorization] header is
    absent or carries no bearer token is answered 401 with an error body,
    and no request to the provider is made. *)
Theorem current_track_no_token
    (provider : Http.request -> Http.reply) (authorization : option string) :
  no_bearer_token authorization ->
  Server.current_track provider authorization
  = Server.Outcome (Server.Json 401 (JS.VObj [("error", JS.VStr "No token provided")])) [].
Proof.
  intros H. unfold Server.current_track.
  rewrite (bearer_token_missing _ H). reflexivity.
Qed.

Lemma current_track_no_token_witness :
  Server.current_track (fun _ => Http.NetworkFailure "unreachable") (Some "Bearer ")
  = Server.Outcome (Server.Json 401 (JS.VObj [("error", JS.VStr "No token provided")])) []
  /\ Server.current_track (fun _ => Http.NetworkFailure "unreachable") None
     = Server.Outcome (Server.Json 401 (JS.VObj [("error", JS.VStr "No token provided")])) [].
Proof.
  split.
  - apply current_track_no_token. right. exists "Bearer", "".
    split; [reflexivity|]. split; [reflexivity|]. left. reflexivity.
  - apply current_track_no_token. exact I.
Defined.

(** With a token the provider is called, with that token. *)
Example current_track_with_token :
  Server.calls (Server.current_track (fun _ => Http.Reply 204 None (Http.Raw ""))
                  (Some "Bearer abc"))
  = [Server.playing_request (JS.VStr "abc")].
Proof. reflexivity. Qed.

(** ** C2: a playing item without album art *)

(** C2 (the code departs from the claim).  When the provider answers 200
    with an item whose [album.images] is the empty array, reading
    [images[0].url] throws inside the handler's [try]; the [catch] turns it
    into a 500 error response.  No track is returned: neither the name, the
    artist, the album nor the playing flag reaches the client. *)
Theorem current_track_empty_images
    (name artist album : string) (is_playing : bool) :
  Server.current_track
    (fun _ => Http.Reply 200 (Some "application/json")
                (Http.Parsed (track_without_art name artist album is_playing)))
    (Some "Bearer abc")
  = Server.Outcome
      (Server.Json 500
         (JS.VObj [("error", JS.VStr "Spotify API error during track fetch");
                   ("details",
                    JS.VStr "Cannot read properties of undefined (reading 'url')")]))
      [Server.playing_request (JS.VStr "abc")].
Proof. reflexivity. Qed.

(** The same item with one image is served as a track. *)
Example current_track_with_image :
  Server.sent
    (Server.current_track
       (fun _ => Http.Reply 200 (Some "application/json")
          (Http.Parsed (JS.VObj
             [("item", JS.VObj
                [("name", JS.VStr "Song");
                 ("artists", JS.VArr [JS.VObj [("name", JS.VStr "Band")]]);
                 ("album", JS.VObj [("name", JS.VStr "Album");
                                    ("images", JS.VArr [JS.VObj [("url", JS.VStr "http://img")]])])]);
              ("is_playing", JS.VBool true)])))
       (Some "Bearer abc"))
  = Server.Json 200
      (JS.VObj [("name", JS.VStr "Song"); ("artist", JS.VStr "Band");
                ("album", JS.VStr "Album"); ("albumArt", JS.VStr "http://img");
                ("isPlaying", JS.VBool true)]).
Proof. reflexivity. Qed.

(** ** C6: the callback relay *)





(** ** C5: refresh carries the refresh token forward *)

Section Frame.
Context {A B : Type} (k : string).

Lemma keeps_ret (a : A) : keeps k (Spotify.ret a).
Proof. intros w. reflexivity. Qed.

Lemma keeps_throw (e : JS.error) : keeps k (@Spotify.throw A e).
Proof. intros w. reflexivity. Qed.

Lemma keeps_lift (r : JS.result A) : keeps k (Spotify.lift r).
Proof. intros w. reflexivity. Qed.

Lemma keeps_bind (m : Spotify.M A) (f : A -> Spotify.M B) :
  keeps k m -> (forall a, keeps k (f a)) -> keeps k (Spotify.bind m f).
Proof.
  intros Hm Hf w. unfold Spotify.bind. specialize (Hm w).
  destruct (m w) as [[a|e] w']; simpl in *; [|exact Hm].
  rewrite Hf. exact Hm.
Qed.

Lemma keeps_try_catch (m : Spotify.M A) (h : JS.error -> Spotify.M A) :
  keeps k m -> (forall e, keeps k (h e)) -> keeps k (Spotify.try_catch m h).
Proof.
  intros Hm Hh w. unfold Spotify.try_catch. specialize (Hm w).
  destruct (m w) as [[a|e] w']; simpl in *; [exact Hm|].
  rewrite Hh. exact Hm.
Qed.

End Frame.

Lemma keeps_getItem (k k' : string) : keeps k (Spotify.getItem k').
Proof. intros w. reflexivity. Qed.

Lemma keeps_setItem (k k' v : string) : k' <> k -> keeps k (Spotify.setItem k' v).
Proof. intros H w. simpl. apply lookup_insert_ne. exact H. Qed.

Lemma keeps_Date_now (net : Spotify.network) (k : string) : keeps k (Spotify.Date_now net).
Proof. intros w. reflexivity. Qed.

Lemma keeps_send (net : Spotify.network) (k : string) (req : Http.request) :
  keeps k (Spotify.send net req).
Proof. intros w. reflexivity. Qed.

Create HintDb frame.
#[local] Hint Resolve keeps_ret keeps_throw keeps_lift keeps_getItem keeps_Date_now
  keeps_send : frame.
#[local] Hint Extern 1 (keeps _ (Spotify.bind _ _)) =>
  apply keeps_bind; [|intros ?] : frame.
#[local] Hint Extern 1 (keeps _ (Spotify.try_catch _ _)) =>
  apply keeps_try_catch; [|intros ?] : frame.
#[local] Hint Extern 1 (keeps _ (Spotify.setItem _ _)) =>
  apply keeps_setItem; discriminate : frame.
#[local] Hint Extern 2 (keeps _ (if ?b then _ else _)) => destruct b : frame.
#[local] Hint Extern 1 (keeps _ (Spotify.axios_post _ _ _)) =>
  apply keeps_send : frame.

Lemma refreshAccessToken_keeps (net : Spotify.network) :
  keeps "refresh_token" (Spotify.refreshAccessToken net).
Proof. unfold Spotify.refreshAccessToken. auto 20 with frame. Qed.

Lemma expired_keeps (net : Spotify.network) (k : string) (v : JS.value) :
  keeps k (Spotify.expired net v).
Proof. unfold Spotify.expired. auto 10 with frame. Qed.

(** C5.  A refresh never writes the refresh token: after
    [refreshAccessToken], and after a [getCurrentlyPlaying] with whatever
    refreshes it triggers, durable storage holds under [refresh_token] what
    it held before, whatever the provider's response contains or omits and
    whether the call succeeds or throws. *)
Theorem refresh_token_carried_forward (net : Spotify.network) (w : Spotify.world) :
  Spotify.localStorage (snd (Spotify.refreshAccessToken net w)) !! "refresh_token"
  = Spotify.localStorage w !! "refresh_token"
  /\ Spotify.localStorage (snd (Spotify.getCurrentlyPlaying net w)) !! "refresh_token"
     = Spotify.localStorage w !! "refresh_token".
Proof.
  split; [apply refreshAccessToken_keeps|].
  revert w. change (keeps "refresh_token" (Spotify.getCurrentlyPlaying net)).
  pose proof (refreshAccessToken_keeps net).
  pose proof (expired_keeps net "refresh_token").
  unfold Spotify.getCurrentlyPlaying. auto 20 with frame.
Qed.

(** ** C9: the token used after a refresh *)

Section Growth.
Context {A B : Type}.

Lemma extends_ret (a : A) : extends (Spotify.ret a).
Proof. intros w. exists []. symmetry. apply List.app_nil_r. Qed.

Lemma extends_throw (e : JS.error) : extends (@Spotify.throw A e).
Proof. intros w. exists []. symmetry. apply List.app_nil_r. Qed.

Lemma extends_lift (r : JS.result A) : extends (Spotify.lift r).
Proof. intros w. exists []. symmetry. apply List.app_nil_r. Qed.

Lemma extends_bind (m : Spotify.M A) (f : A -> Spotify.M B) :
  extends m -> (forall a, extends (f a)) -> extends (Spotify.bind m f).
Proof.
  intros Hm Hf w. unfold Spotify.bind. destruct (Hm w) as [l1 H1].
  destruct (m w) as [[a|e] w']; simpl in *; [|eauto].
  destruct (Hf a w') as [l2 H2]. exists (l1 ++ l2)%list.
  rewrite H2, H1. symmetry. apply List.app_assoc.
Qed.

Lemma extends_try_catch (m : Spotify.M A) (h : JS.error -> Spotify.M A) :
  extends m -> (forall e, extends (h e)) -> extends (Spotify.try_catch m h).
Proof.
  intros Hm Hh w. unfold Spotify.try_catch. destruct (Hm w) as [l1 H1].
  destruct (m w) as [[a|e] w']; simpl in *; [eauto|].
  destruct (Hh e w') as [l2 H2]. exists (l1 ++ l2)%list.
  rewrite H2, H1. symmetry. apply List.app_assoc.
Qed.

End Growth.

Lemma extends_getItem (k : string) : extends (Spotify.getItem k).
Proof. intros w. exists []. symmetry. apply List.app_nil_r. Qed.

Lemma extends_setItem (k v : string) : extends (Spotify.setItem k v).
Proof. intros w. exists []. symmetry. apply List.app_nil_r. Qed.

Lemma extends_Date_now (net : Spotify.network) : extends (Spotify.Date_now net).
Proof. intros w. exists []. symmetry. apply List.app_nil_r. Qed.

Lemma extends_send (net : Spotify.network) (req : Http.request) :
  extends (Spotify.send net req).
Proof. intros w. exists [req]. reflexivity. Qed.

Create HintDb growth.
#[local] Hint Resolve extends_ret extends_throw extends_lift extends_getItem
  extends_setItem extends_Date_now extends_send : growth.
#[local] Hint Extern 1 (extends (Spotify.bind _ _)) =>
  apply extends_bind; [|intros ?] : growth.
#[local] Hint Extern 1 (extends (Spotify.try_catch _ _)) =>
  apply extends_try_catch; [|intros ?] : growth.
#[local] Hint Extern 2 (extends (if ?b then _ else _)) => destruct b : growth.
#[local] Hint Extern 1 (extends (Spotify.axios_post _ _ _)) =>
  apply extends_send : growth.

Lemma refreshAccessToken_extends (net : Spotify.network) :
  extends (Spotify.refreshAccessToken net).
Proof. unfold Spotify.refreshAccessToken. auto 20 with growth. Qed.

Lemma refreshAccessToken_stores (net : Spotify.network) (w : Spotify.world) (t : JS.value) :
  fst (Spotify.refreshAccessToken net w) = JS.Ok t ->
  Spotify.localStorage (snd (Spotify.refreshAccessToken net w)) !! "access_token"
  = Some (JS.to_string t).
Proof.
  unfold Spotify.refreshAccessToken, Spotify.bind, Spotify.try_catch, Spotify.getItem.
  simpl.
  destruct (JS.falsy _); [discriminate|].
  unfold Spotify.axios_post, Spotify.send, Spotify.lift, Spotify.setItem,
    Spotify.Date_now, Spotify.ret, Spotify.throw. simpl.
  destruct (Http.axios _) as [[status data]|e]; simpl.
  - destruct (JS.get data "access_token") as [a|e1]; simpl.
    + destruct (JS.get data "expires_in") as [x|e2]; simpl.
      * intros [= <-]. rewrite lookup_insert_ne by discriminate.
        apply lookup_insert_eq.
      * destruct (JS.isAxiosError e2); discriminate.
    + destruct (JS.isAxiosError e1); discriminate.
  - destruct (JS.isAxiosError e); discriminate.
Qed.

Lemma playing_request_inj (a b : JS.value) :
  Spotify.playing_request a = Spotify.playing_request b ->
  JS.to_string a = JS.to_string b.
Proof. unfold Spotify.playing_request. intros [= H]. exact H. Qed.

(** C9.  When [getCurrentlyPlaying] finds a stored access token and a
    stored expiry that has passed, and the refresh it then runs succeeds,
    the request that follows the refresh carries the access token read at
    the start of the call; the refreshed token is in storage by then, and
    where its text differs the request is not the one that would carry it. *)
Theorem getCurrentlyPlaying_uses_stale_token
    (net : Spotify.network) (w : Spotify.world)
    (token expiry : string) (instant : Z) (newToken : JS.value) :
  Spotify.localStorage w !! "access_token" = Some token ->
  token <> "" ->
  Spotify.localStorage w !! "token_expiry" = Some expiry ->
  expiry <> "" ->
  JS.parseInt expiry = Some instant ->
  instant < Spotify.clock net (Spotify.sent w) ->
  fst (Spotify.refreshAccessToken net w) = JS.Ok newToken ->
  let refreshed := snd (Spotify.refreshAccessToken net w) in
  (exists more,
     Spotify.sent (snd (Spotify.getCurrentlyPlaying net w))
     = (Spotify.sent refreshed
        ++ Spotify.playing_request (JS.VStr token) :: more)%list)
  /\ Spotify.localStorage refreshed !! "access_token" = Some (JS.to_string newToken)
  /\ (JS.to_string newToken <> token ->
      Spotify.playing_request (JS.VStr token) <> Spotify.playing_request newToken).
Proof.
  intros Ht Hne He Hee Hp Hlt Hr refreshed.
  split; [|split].
  - unfold Spotify.getCurrentlyPlaying, Spotify.bind at 1 2, Spotify.getItem.
    cbn [fst snd]. rewrite Ht, He.
    assert (Hf : JS.falsy (JS.VStr token) = false).
    { unfold JS.falsy. simpl. apply String.eqb_neq in Hne. rewrite Hne. reflexivity. }
    rewrite Hf.
    assert (Hx : Spotify.expired net (JS.VStr expiry) w = (JS.Ok true, w)).
    { unfold Spotify.expired. simpl. apply String.eqb_neq in Hee. rewrite Hee. simpl.
      unfold Spotify.bind, Spotify.Date_now, Spotify.ret. simpl. rewrite Hp. simpl.
      apply Z.ltb_lt in Hlt. rewrite Hlt. reflexivity. }
    unfold Spotify.bind at 1. rewrite Hx.
    unfold Spotify.bind at 1, Spotify.try_catch at 1, Spotify.bind at 1.
    fold refreshed. destruct (Spotify.refreshAccessToken net w) as [[t|e] w1] eqn:E;
      simpl in Hr; [|discriminate].
    subst refreshed. cbn [snd fst]. unfold Spotify.ret at 1.
    unfold Spotify.try_catch at 1, Spotify.bind at 1, Spotify.send at 1.
    destruct (Http.axios _) as [resp|err]; cbn [fst snd].
    + exists []. reflexivity.
    + assert (G : extends
        (if JS.isAxiosError err
            && match JS.response_status err with JS.VNum 401 => true | _ => false end
         then Spotify.try_catch
                (Spotify.bind (Spotify.refreshAccessToken net)
                   (fun newToken0 => Spotify.bind
                      (Spotify.send net (Spotify.playing_request newToken0))
                      (fun response => Spotify.ret (snd response))))
                (fun refreshError => Spotify.throw refreshError)
         else Spotify.ret JS.VNull)).
      { pose proof (refreshAccessToken_extends net). auto 20 with growth. }
      match goal with |- context [snd (?h ?x)] =>
        destruct (G x) as [more Hm] end.
      exists more. rewrite Hm. cbn [Spotify.sent]. rewrite <- List.app_assoc. reflexivity.
  - apply refreshAccessToken_stores. exact Hr.
  - intros Hd Heq. apply playing_request_inj in Heq. simpl in Heq. congruence.
Qed.

Lemma getCurrentlyPlaying_uses_stale_token_witness :
  (exists more,
     Spotify.sent (snd (Spotify.getCurrentlyPlaying refreshing_network expired_world))
     = (Spotify.sent (snd (Spotify.refreshAccessToken refreshing_network expired_world))
        ++ Spotify.playing_request (JS.VStr "old") :: more)%list)
  /\ Spotify.localStorage (snd (Spotify.refreshAccessToken refreshing_network expired_world))
       !! "access_token" = Some (JS.to_string (JS.VStr "new"))
  /\ (JS.to_string (JS.VStr "new") <> "old" ->
      Spotify.playing_request (JS.VStr "old") <> Spotify.playing_request (JS.VStr "new")).
Proof.
  apply (getCurrentlyPlaying_uses_stale_token refreshing_network expired_world
           "old" "1000" 1000 (JS.VStr "new")).
  - reflexivity.
  - discriminate.
  - reflexivity.
  - discriminate.
  - reflexivity.
  - reflexivity.
  - reflexivity.
Defined.

(** The run of that scenario: one refresh, then one request with the old
    token; storage holds the new token and the refresh token it had. *)
Example stale_token_run :
  let w := snd (Spotify.getCurrentlyPlaying refreshing_network expired_world) in
  map Http.method (Spotify.sent w) = ["POST"; "GET"]
  /\ List.last (Spotify.sent w) (Spotify.playing_request JS.VNull)
     = Spotify.playing_request (JS.VStr "old")
  /\ Spotify.localStorage w !! "access_token" = Some "new"
  /\ Spotify.localStorage w !! "refresh_token" = Some "RT1"
  /\ Spotify.localStorage w !! "token_expiry" = Some "3602000".
Proof. vm_compute. repeat split; reflexivity. Qed.

(** ** C1: a protected call answered 401 *)

(** C1, as stated, fails on [getCurrentlyPlaying]: answered 401, it
    refreshes, sends the protected request again with the new token, and
    leaves an access token in durable storage. *)
Lemma getCurrentlyPlaying_retries_counterexample :
  let w := snd (Spotify.getCurrentlyPlaying revoking_network valid_world) in
  Spotify.respond revoking_network (Spotify.sent valid_world)
    (Spotify.playing_request (JS.VStr "old"))
  = Http.Reply 401 (Some "application/json")
      (Http.Parsed (JS.VObj [("error", JS.VStr "expired")]))
  /\ map Http.method (Spotify.sent w) = ["GET"; "POST"; "GET"]
  /\ List.last (Spotify.sent w) (Spotify.playing_request JS.VNull)
     = Spotify.playing_request (JS.VStr "new")
  /\ Spotify.localStorage w !! "access_token" = Some "new".
Proof. vm_compute. repeat split; reflexivity. Qed.

Lemma clearInterval_frame (id : option nat) (p : App.page) :
  App.st (App.clearInterval id p) = App.st p
  /\ App.localStorage (App.clearInterval id p) = App.localStorage p
  /\ App.sessionStorage (App.clearInterval id p) = App.sessionStorage p
  /\ App.mounted (App.clearInterval id p) = App.mounted p
  /\ App.requests (App.clearInterval id p) = App.requests p
  /\ App.awaiting (App.clearInterval id p) = App.awaiting p
  /\ App.next_timer (App.clearInterval id p) = App.next_timer p.
Proof. destruct id as [[|i]|]; cbn; tauto. Qed.

Lemma run_polling_frame (p : App.page) :
  App.st (App.run_polling p) = App.st p
  /\ App.localStorage (App.run_polling p) = App.localStorage p
  /\ App.sessionStorage (App.run_polling p) = App.sessionStorage p
  /\ App.mounted (App.run_polling p) = App.mounted p
  /\ App.requests (App.run_polling p) = App.requests p
  /\ App.awaiting (App.run_polling p) = App.awaiting p.
Proof. unfold App.run_polling. destruct (_ && _); cbn; tauto. Qed.

Lemma commit_frame (p : App.page) :
  App.st (App.commit p) = App.st p
  /\ App.localStorage (App.commit p) = App.localStorage p
  /\ App.sessionStorage (App.commit p) = App.sessionStorage p
  /\ App.mounted (App.commit p) = App.mounted p
  /\ App.requests (App.commit p) = App.requests p
  /\ App.awaiting (App.commit p) = App.awaiting p.
Proof.
  unfold App.commit.
  destruct (App.mounted p) eqn:Hm; [|rewrite Hm; tauto].
  destruct (App.polling p) as [e|].
  - destruct (App.same_deps _ _); [rewrite Hm; tauto|].
    destruct (run_polling_frame (App.clearInterval (App.intervalId e) p))
      as (-> & -> & -> & -> & -> & ->).
    destruct (clearInterval_frame (App.intervalId e) p)
      as (-> & -> & -> & -> & -> & -> & _).
    rewrite Hm. tauto.
  - destruct (run_polling_frame p) as (-> & -> & -> & -> & -> & ->).
    rewrite Hm. tauto.
Qed.

Lemma clearAuth_clears (p : App.page) :
  let p' := App.clearAuth p in
  App.localStorage p' !! "spotify_access_token" = None
  /\ App.sessionStorage p' !! "spotify_code_verifier" = None
  /\ App.requests p' = App.requests p
  /\ App.awaiting p' = App.awaiting p
  /\ (App.mounted p = true ->
      App.st p' = App.State JS.VNull (App.isLoading (App.st p)) false JS.VNull).
Proof.
  destruct p as [s l ss m e t n r a]. unfold App.clearAuth, App.update.
  destruct m; cbn; rewrite !lookup_delete_eq; repeat split; congruence.
Qed.

(** C1, amended to the component ([validateAndFetchTrack] in [App.tsx]).
    Whatever the page's state, when the suspended protected call is answered
    401 the component ends Invalid (no access token, not authenticated, no
    track), the access token is gone from durable storage and the verifier
    from ephemeral storage, and no request has been added: the call is not
    retried. *)
Theorem unauthorized_invalidates
    (backend : string) (p : App.page) (i : nat) (l : bool)
    (contentType : option string) (c : Http.content) :
  App.mounted p = true ->
  App.awaiting p !! i = Some (App.AwaitValidate l) ->
  exists p',
    App.step backend (App.Settle i (Http.Reply 401 contentType c)) p = Some p'
    /\ App.accessToken (App.st p') = JS.VNull
    /\ App.isAuthenticated (App.st p') = false
    /\ App.track (App.st p') = JS.VNull
    /\ App.localStorage p' !! "spotify_access_token" = None
    /\ App.sessionStorage p' !! "spotify_code_verifier" = None
    /\ App.requests p' = App.requests p.
Proof.
  intros Hm Ha. eexists. split.
  { unfold App.step. rewrite Ha. reflexivity. }
  destruct (commit_frame
    (App.validate_resume l (Http.Reply 401 contentType c) (App.drop_awaiting i p)))
    as (-> & -> & -> & _ & -> & _).
  unfold App.validate_resume, App.validate_try. cbn [Z.eqb Pos.eqb].
  destruct (clearAuth_clears (App.drop_awaiting i p)) as (Hl & Hs & Hr & _ & Hst).
  specialize (Hst Hm).
  assert (Hm' : App.mounted (App.clearAuth (App.drop_awaiting i p)) = true).
  { destruct p; unfold App.clearAuth, App.update; cbn in *; subst; reflexivity. }
  assert (Hr' : App.requests (App.drop_awaiting i p) = App.requests p)
    by reflexivity.
  destruct l.
  - unfold App.update at 1 2 3 4 5 6. rewrite Hm'. cbn. rewrite Hst. cbn.
    repeat split; congruence.
  - rewrite Hst. cbn. repeat split; congruence.
Qed.

Lemma unauthorized_invalidates_witness :
  exists p',
    App.step "http://localhost:3000"
      (App.Settle 0 (Http.Reply 401 None (Http.Raw "")))
      (App.mount "http://localhost:3000" JS.VNull
         (<["spotify_access_token" := "AT1"]> ∅) ∅) = Some p'
    /\ App.accessToken (App.st p') = JS.VNull
    /\ App.isAuthenticated (App.st p') = false
    /\ App.track (App.st p') = JS.VNull
    /\ App.localStorage p' !! "spotify_access_token" = None
    /\ App.sessionStorage p' !! "spotify_code_verifier" = None
    /\ App.requests p'
       = App.requests (App.mount "http://localhost:3000" JS.VNull
                         (<["spotify_access_token" := "AT1"]> ∅) ∅).
Proof.
  apply (unauthorized_invalidates "http://localhost:3000"
           (App.mount "http://localhost:3000" JS.VNull
              (<["spotify_access_token" := "AT1"]> ∅) ∅)
           0 true None (Http.Raw "")).
  - vm_compute. reflexivity.
  - vm_compute. reflexivity.
Defined.

(** ** C8: the poll timer *)

Lemma same_polling_refl (p : App.page) : same_polling p p.
Proof. unfold same_polling. tauto. Qed.

Lemma same_polling_trans (p q r : App.page) :
  same_polling p q -> same_polling q r -> same_polling p r.
Proof. unfold same_polling. intros (-> & -> & -> & ->) (-> & -> & -> & ->). tauto. Qed.

Lemma update_same_polling (f : App.state -> App.state) (p : App.page) :
  same_polling p (App.update f p).
Proof.
  unfold App.update, same_polling. destruct (App.mounted p) eqn:E; cbn; tauto.
Qed.

Lemma clearAuth_same_polling (p : App.page) : same_polling p (App.clearAuth p).
Proof.
  unfold App.clearAuth.
  repeat (eapply same_polling_trans; [|apply update_same_polling]).
  unfold same_polling. tauto.
Qed.

Lemma drop_awaiting_same_polling (i : nat) (p : App.page) :
  same_polling p (App.drop_awaiting i p).
Proof. unfold same_polling. tauto. Qed.

Lemma validate_start_same_polling (backend : string) (l : bool) (t : JS.value) (p : App.page) :
  same_polling p (App.validate_start backend l t p).
Proof.
  unfold App.validate_start. destruct (JS.falsy t).
  - eapply same_polling_trans; [apply clearAuth_same_polling | apply update_same_polling].
  - unfold same_polling. tauto.
Qed.

Lemma update2_same_polling (f g : App.state -> App.state) (p : App.page) :
  same_polling p (App.update f (App.update g p)).
Proof.
  eapply same_polling_trans; [apply update_same_polling | apply update_same_polling].
Qed.

Lemma validate_try_same_polling (r : Http.reply) (p p' : App.page) :
  App.validate_try r p = Some p' -> same_polling p p'.
Proof.
  unfold App.validate_try.
  destruct r as [status ct c|m]; [|discriminate].
  destruct (status =? 401); [intros [= <-]; apply clearAuth_same_polling|].
  destruct (status =? 204); [intros [= <-]; apply update2_same_polling|].
  destruct (negb (Http.ok status)); [discriminate|].
  destruct (App.is_json ct); [|intros [= <-]; apply update2_same_polling].
  destruct (Http.json c) as [data|e]; [|discriminate].
  destruct (JS.truthy data && JS.truthy (JS.get_opt data "name"));
    intros [= <-]; apply update2_same_polling.
Qed.

Lemma validate_resume_same_polling (l : bool) (r : Http.reply) (p : App.page) :
  same_polling p (App.validate_resume l r p).
Proof.
  assert (H : same_polling p
                match App.validate_try r p with
                | Some p' => p'
                | None => App.clearAuth p
                end).
  { destruct (App.validate_try r p) as [p'|] eqn:E;
      [eapply validate_try_same_polling; eauto | apply clearAuth_same_polling]. }
  unfold App.validate_resume. destruct l; [|exact H].
  eapply same_polling_trans; [exact H | apply update_same_polling].
Qed.

Lemma exchange_resume_same_polling (backend : string) (r : Http.reply) (p : App.page) :
  same_polling p (App.exchange_resume backend r p).
Proof.
  unfold App.exchange_resume.
  destruct r as [status ct c|m]; [|apply clearAuth_same_polling].
  assert (H1 : same_polling p (App.session_removeItem "spotify_code_verifier" p))
    by (unfold same_polling; tauto).
  destruct (negb (Http.ok status)).
  { eapply same_polling_trans; [exact H1 | apply clearAuth_same_polling]. }
  destruct (JS.bind _ _) as [t|e].
  - eapply same_polling_trans; [|apply validate_start_same_polling].
    eapply same_polling_trans; [|apply update_same_polling].
    eapply same_polling_trans; [|apply update_same_polling].
    unfold same_polling. tauto.
  - eapply same_polling_trans; [exact H1 | apply clearAuth_same_polling].
Qed.

Lemma timers_tracked_frame (p q : App.page) :
  same_polling p q -> timers_tracked p -> timers_tracked q.
Proof. unfold same_polling, timers_tracked. intros (-> & -> & -> & ->). tauto. Qed.

Lemma same_deps_eq (a b : bool * JS.value) : App.same_deps a b = true -> a = b.
Proof.
  destruct a as [a1 a2], b as [b1 b2]. unfold App.same_deps, JS.same. cbn.
  intros H. apply andb_true_iff in H as [H1 H2].
  apply Bool.eqb_prop in H1. destruct (JS.value_eq_dec a2 b2); [|discriminate].
  congruence.
Qed.

Lemma run_polling_settled (p : App.page) :
  App.mounted p = true -> App.timers p = ∅ -> (0 < App.next_timer p)%nat ->
  settled (App.run_polling p).
Proof.
  intros Hm Ht Hn. unfold App.run_polling, settled, timers_tracked, synced.
  destruct (App.isAuthenticated (App.st p) && JS.truthy (App.accessToken (App.st p)))
    eqn:E; cbn.
  - apply andb_true_iff in E as [E1 E2]. rewrite Ht.
    repeat split; auto. eexists. apply insert_empty.
  - repeat split; auto.
Qed.

Lemma clearInterval_tracked (p : App.page) (e : App.effect) :
  timers_tracked p -> App.polling p = Some e ->
  App.mounted (App.clearInterval (App.intervalId e) p) = true
  /\ App.timers (App.clearInterval (App.intervalId e) p) = ∅
  /\ (0 < App.next_timer (App.clearInterval (App.intervalId e) p))%nat.
Proof.
  unfold timers_tracked. intros [Hn H] He. rewrite He in H. destruct H as [Hm H].
  destruct (App.intervalId e) as [[|id]|]; cbn.
  - destruct H as [H _]. lia.
  - destruct H as (_ & [c Hc] & _). rewrite Hc. split; [exact Hm|].
    split; [apply delete_singleton_eq | exact Hn].
  - auto.
Qed.

Lemma commit_settled (p : App.page) : timers_tracked p -> settled (App.commit p).
Proof.
  intros H. unfold App.commit.
  destruct (App.mounted p) eqn:Hm.
  - destruct (App.polling p) as [e|] eqn:He.
    + destruct (App.same_deps _ _) eqn:Hd.
      * split; [exact H|]. unfold synced. rewrite He. apply same_deps_eq. exact Hd.
      * destruct (clearInterval_tracked p e H He) as (Hm' & Ht' & Hn').
        apply run_polling_settled; assumption.
    + unfold timers_tracked in H. rewrite He in H.
      apply run_polling_settled; [exact Hm | apply H | apply H].
  - split; [exact H|]. unfold synced, timers_tracked in *.
    destruct (App.polling p); [|exact Hm]. destruct H as [_ [H _]]. congruence.
Qed.

Lemma unmount_settled (p : App.page) : timers_tracked p -> settled (App.unmount p).
Proof.
  intros H. unfold App.unmount, settled, timers_tracked, synced. cbn.
  split; [|reflexivity].
  destruct (App.polling p) as [e|] eqn:He.
  - destruct (clearInterval_tracked p e H He) as (_ & Ht & Hn). auto.
  - unfold timers_tracked in H. rewrite He in H. exact H.
Qed.

Lemma settled_no_timers (p : App.page) :
  settled p ->
  App.mounted p = false
  \/ App.isAuthenticated (App.st p) = false
  \/ JS.truthy (App.accessToken (App.st p)) = false ->
  App.timers p = ∅.
Proof.
  unfold settled, timers_tracked, synced. intros [[_ Ht] Hs] H.
  destruct (App.polling p) as [e|]; [|exact Ht].
  destruct Ht as [Hm Ht]. destruct (App.intervalId e); [|exact Ht].
  destruct Ht as (_ & _ & H1 & H2). rewrite Hs in H1, H2. cbn in H1, H2.
  destruct H as [H|[H|H]]; congruence.
Qed.

Lemma step_settled (backend : string) (ev : App.event) (p p' : App.page) :
  timers_tracked p -> App.step backend ev p = Some p' -> settled p'.
Proof.
  intros H. destruct ev as [id|i r| |]; cbn.
  - destruct (App.timers p !! id) as [c|]; [|discriminate].
    intros [= <-]. apply commit_settled.
    eapply timers_tracked_frame; [apply validate_start_same_polling | exact H].
  - destruct (App.awaiting p !! i) as [[l|]|]; [| |discriminate]; intros [= <-];
      apply commit_settled.
    + eapply timers_tracked_frame; [apply validate_resume_same_polling|].
      eapply timers_tracked_frame; [apply drop_awaiting_same_polling | exact H].
    + eapply timers_tracked_frame; [apply exchange_resume_same_polling|].
      eapply timers_tracked_frame; [apply drop_awaiting_same_polling | exact H].
  - destruct (_ && _); [|discriminate]. intros [= <-]. apply commit_settled.
    eapply timers_tracked_frame; [apply clearAuth_same_polling | exact H].
  - destruct (App.mounted p); [|discriminate]. intros [= <-].
    apply unmount_settled. exact H.
Qed.

Lemma startup_same_polling (backend : string) (code : JS.value) (p : App.page) :
  same_polling p (App.startup backend code p).
Proof.
  unfold App.startup. destruct (JS.truthy code).
  - unfold App.exchange_start. destruct (JS.falsy _).
    + eapply same_polling_trans; [apply clearAuth_same_polling | apply update_same_polling].
    + unfold same_polling. tauto.
  - destruct (JS.truthy _).
    + eapply same_polling_trans; [|apply validate_start_same_polling].
      apply update2_same_polling.
    + apply update2_same_polling.
Qed.

Lemma mount_settled (backend : string) (code : JS.value) (local session : gmap string string) :
  settled (App.mount backend code local session).
Proof.
  unfold App.mount. apply commit_settled.
  eapply timers_tracked_frame; [apply startup_same_polling|].
  unfold timers_tracked. cbn. repeat split; auto; lia.
Qed.

Lemma calm_refl (p : App.page) : calm p p.
Proof. split; [intros H; exact H | intros x H; left; exact H]. Qed.

Lemma calm_trans (p q r : App.page) : calm p q -> calm q r -> calm p r.
Proof.
  intros [K1 A1] [K2 A2]. split.
  - intros H. apply K2, K1, H.
  - intros x H. destruct (A2 x H) as [H'|H']; [apply A1, H' | right; exact H'].
Qed.

Lemma update_calm (f : App.state -> App.state) (p : App.page) :
  (forall s, App.accessToken s = JS.VNull -> App.accessToken (f s) = JS.VNull) ->
  calm p (App.update f p).
Proof.
  intros Hf. unfold App.update. destruct (App.mounted p); [|apply calm_refl].
  split; [intros H; cbn; apply Hf, H | intros x H; left; exact H].
Qed.

Lemma clearAuth_calm (p : App.page) : calm p (App.clearAuth p).
Proof.
  unfold App.clearAuth.
  repeat (eapply calm_trans; [|apply update_calm; intros s H; try exact H; reflexivity]).
  split; [intros H; exact H | intros x H; left; exact H].
Qed.

Lemma In_take_drop {A} (x : A) (i : nat) (l : list A) :
  In x (take i l ++ drop (S i) l) -> In x l.
Proof.
  intros H. apply List.in_app_or in H as [H|H].
  - rewrite <- (take_drop i l). apply List.in_or_app. left. exact H.
  - rewrite <- (take_drop (S i) l). apply List.in_or_app. right. exact H.
Qed.

Lemma drop_awaiting_calm (i : nat) (p : App.page) : calm p (App.drop_awaiting i p).
Proof.
  split; [intros H; exact H|]. intros x H. left. cbn in H.
  eapply In_take_drop. exact H.
Qed.

Lemma validate_start_calm (backend : string) (l : bool) (t : JS.value) (p : App.page) :
  calm p (App.validate_start backend l t p).
Proof.
  unfold App.validate_start. destruct (JS.falsy t).
  - eapply calm_trans; [apply clearAuth_calm|].
    apply update_calm. intros s H. exact H.
  - split; [intros H; exact H|]. intros x H. cbn in H.
    apply List.in_app_or in H as [H|[<-|[]]]; [left; exact H | right; eauto].
Qed.

Lemma update2_calm (b : bool) (v : JS.value) (p : App.page) :
  calm p (App.update (App.setIsAuthenticated b) (App.update (App.setTrack v) p)).
Proof.
  eapply calm_trans; apply update_calm; intros s H; exact H.
Qed.

Lemma validate_try_calm (r : Http.reply) (p p' : App.page) :
  App.validate_try r p = Some p' -> calm p p'.
Proof.
  unfold App.validate_try.
  destruct r as [status ct c|m]; [|discriminate].
  destruct (status =? 401); [intros [= <-]; apply clearAuth_calm|].
  destruct (status =? 204); [intros [= <-]; apply update2_calm|].
  destruct (negb (Http.ok status)); [discriminate|].
  destruct (App.is_json ct); [|intros [= <-]; apply update2_calm].
  destruct (Http.json c) as [data|e]; [|discriminate].
  destruct (JS.truthy data && JS.truthy (JS.get_opt data "name"));
    intros [= <-]; apply update2_calm.
Qed.

Lemma validate_resume_calm (l : bool) (r : Http.reply) (p : App.page) :
  calm p (App.validate_resume l r p).
Proof.
  assert (H : calm p match App.validate_try r p with
                     | Some p' => p'
                     | None => App.clearAuth p
                     end).
  { destruct (App.validate_try r p) as [p'|] eqn:E;
      [eapply validate_try_calm; eauto | apply clearAuth_calm]. }
  unfold App.validate_resume. destruct l; [|exact H].
  eapply calm_trans; [exact H|]. apply update_calm. intros s Hs. exact Hs.
Qed.

Lemma commit_calm (p : App.page) : calm p (App.commit p).
Proof.
  destruct (commit_frame p) as (Hs & _ & _ & _ & _ & Ha).
  split; [intros H; rewrite Hs; exact H | intros x H; left; rewrite <- Ha; exact H].
Qed.

Lemma update_awaiting (f : App.state -> App.state) (p : App.page) :
  App.awaiting (App.update f p) = App.awaiting p.
Proof. unfold App.update. destruct (App.mounted p); reflexivity. Qed.

Lemma exchange_resume_adds_validations (backend : string) (r : Http.reply) (p : App.page) :
  adds_validations p (App.exchange_resume backend r p).
Proof.
  unfold App.exchange_resume.
  destruct r as [status ct c|m]; [|apply clearAuth_calm].
  set (p1 := App.session_removeItem "spotify_code_verifier" p).
  assert (H1 : forall q, adds_validations p1 q -> adds_validations p q).
  { intros q H x Hx. exact (H x Hx). }
  destruct (negb (Http.ok status)); [apply H1, clearAuth_calm|].
  destruct (JS.bind _ _) as [t|e]; [|apply H1, clearAuth_calm].
  apply H1. intros x Hx.
  apply validate_start_calm in Hx. destruct Hx as [Hx|Hx]; [|right; exact Hx].
  rewrite !update_awaiting in Hx. left. exact Hx.
Qed.

Lemma lookup_In {A} (l : list A) (i : nat) (x : A) : l !! i = Some x -> In x l.
Proof.
  intros H. apply list_elem_of_In. eapply list_elem_of_lookup_2. exact H.
Qed.

Lemma step_stays_unmounted (backend : string) (ev : App.event) (p p' : App.page) :
  App.mounted p = false -> App.step backend ev p = Some p' -> App.mounted p' = false.
Proof.
  intros Hm. destruct ev as [id|i r| |]; cbn.
  - destruct (App.timers p !! id) as [c|]; [|discriminate]. intros [= <-].
    rewrite (proj1 (proj2 (proj2 (proj2 (commit_frame _))))).
    rewrite (proj2 (proj2 (proj2 (validate_start_same_polling backend _ _ p)))).
    exact Hm.
  - destruct (App.awaiting p !! i) as [[l|]|]; [| |discriminate]; intros [= <-];
      rewrite (proj1 (proj2 (proj2 (proj2 (commit_frame _))))).
    + rewrite (proj2 (proj2 (proj2 (validate_resume_same_polling _ _ _)))). exact Hm.
    + rewrite (proj2 (proj2 (proj2 (exchange_resume_same_polling _ _ _)))). exact Hm.
  - rewrite Hm. discriminate.
  - rewrite Hm. discriminate.
Qed.

Lemma quiet_no_timers (p : App.page) : quiet p -> App.timers p = ∅.
Proof.
  intros [Hs [Hm|[Ht _]]]; apply settled_no_timers; auto.
  right. right. rewrite Ht. reflexivity.
Qed.

Lemma quiet_step (backend : string) (ev : App.event) (p p' : App.page) :
  quiet p -> App.step backend ev p = Some p' ->
  quiet p' /\ App.is_tick ev = false.
Proof.
  intros Hq Hstep.
  assert (Hset : settled p') by (eapply step_settled; [apply Hq | exact Hstep]).
  pose proof (quiet_no_timers p Hq) as Ht.
  assert (Htick : App.is_tick ev = false).
  { destruct ev; try reflexivity. cbn in Hstep. rewrite Ht in Hstep.
    rewrite lookup_empty in Hstep. discriminate. }
  split; [|exact Htick]. split; [exact Hset|].
  destruct Hq as [_ [Hm|[Hnull Hno]]].
  { left. eapply step_stays_unmounted; eauto. }
  destruct ev as [id|i r| |]; cbn in Hstep.
  - discriminate.
  - destruct (App.awaiting p !! i) as [[l|]|] eqn:Ha; [| |discriminate].
    + injection Hstep as <-. right.
      assert (C : calm p (App.commit (App.validate_resume l r (App.drop_awaiting i p)))).
      { eapply calm_trans; [apply drop_awaiting_calm|].
        eapply calm_trans; [apply validate_resume_calm | apply commit_calm]. }
      destruct C as [K A]. split; [apply K, Hnull|].
      intros Hin. destruct (A _ Hin) as [H|[l' H]]; [tauto | discriminate].
    + exfalso. apply Hno. eapply lookup_In. exact Ha.
  - destruct (_ && _); [|discriminate]. injection Hstep as <-. right.
    assert (C : calm p (App.commit (App.clearAuth p))).
    { eapply calm_trans; [apply clearAuth_calm | apply commit_calm]. }
    destruct C as [K A]. split; [apply K, Hnull|].
    intros Hin. destruct (A _ Hin) as [H|[l' H]]; [tauto | discriminate].
  - destruct (App.mounted p); [|discriminate]. injection Hstep as <-.
    left. reflexivity.
Qed.

Lemma quiet_run (backend : string) (evs : list App.event) (p p' : App.page) :
  quiet p -> App.run backend evs p = Some p' ->
  existsb App.is_tick evs = false /\ App.timers p' = ∅.
Proof.
  revert p. induction evs as [|ev evs IH]; intros p Hq; cbn.
  - intros [= <-]. split; [reflexivity | apply quiet_no_timers, Hq].
  - destruct (App.step backend ev p) as [p1|] eqn:E; [|discriminate].
    intros Hrun. destruct (quiet_step backend ev p p1 Hq E) as [Hq1 Htick].
    rewrite Htick. cbn. exact (IH p1 Hq1 Hrun).
Qed.

Lemma settled_tick_authenticated (p : App.page) (id : nat) (c : App.closure) :
  settled p -> App.timers p !! id = Some c ->
  App.mounted p = true /\ App.isAuthenticated (App.st p) = true.
Proof.
  intros Hs Hl.
  destruct (App.mounted p) eqn:Hm.
  - destruct (App.isAuthenticated (App.st p)) eqn:Ha; [auto|].
    rewrite (settled_no_timers p Hs) in Hl by auto.
    rewrite lookup_empty in Hl. discriminate.
  - rewrite (settled_no_timers p Hs) in Hl by auto.
    rewrite lookup_empty in Hl. discriminate.
Qed.

(** After any event but a tear-down, no token exchange is awaited. *)
Lemma step_exchange_over (backend : string) (ev : App.event) (p p' : App.page) :
  settled p -> exchange_alone p -> App.step backend ev p = Some p' ->
  ev = App.Unmount \/ ~ In App.AwaitExchange (App.awaiting p').
Proof.
  intros Hs He Hstep.
  destruct ev as [id|i r| |]; cbn in Hstep; [| | |left; reflexivity]; right.
  - destruct (App.timers p !! id) as [c|] eqn:Hl; [|discriminate].
    injection Hstep as <-.
    destruct (settled_tick_authenticated p id c Hs Hl) as [Hm Ha].
    intros Hin.
    destruct (commit_calm (App.validate_start backend (App.captured_isLoading c)
                             (App.captured_token c) p)) as [_ A].
    destruct (A _ Hin) as [H|[l H]]; [|discriminate].
    destruct (validate_start_calm backend (App.captured_isLoading c)
                (App.captured_token c) p) as [_ A'].
    destruct (A' _ H) as [H'|[l H']]; [|discriminate].
    destruct (He H') as [_ Hf]. specialize (Hf Hm). congruence.
  - destruct (App.awaiting p !! i) as [[l|]|] eqn:Ha; [| |discriminate];
      injection Hstep as <-; intros Hin.
    + destruct (commit_calm (App.validate_resume l r (App.drop_awaiting i p))) as [_ A].
      destruct (A _ Hin) as [H|[l' H]]; [|discriminate].
      destruct (validate_resume_calm l r (App.drop_awaiting i p)) as [_ A'].
      destruct (A' _ H) as [H'|[l' H']]; [|discriminate].
      destruct (drop_awaiting_calm i p) as [_ A''].
      destruct (A'' _ H') as [H''|[l' H'']]; [|discriminate].
      destruct (He H'') as [Hone _]. rewrite Hone in Ha.
      destruct i as [|i]; cbn in Ha; discriminate.
    + destruct (commit_calm (App.exchange_resume backend r (App.drop_awaiting i p)))
        as [_ A].
      destruct (A _ Hin) as [H|[l' H]]; [|discriminate].
      destruct (exchange_resume_adds_validations backend r (App.drop_awaiting i p) _ H)
        as [H'|[l' H']]; [|discriminate].
      destruct (He (lookup_In _ _ _ Ha)) as [Hone _].
      cbn in H'. rewrite Hone in H', Ha.
      destruct i as [|i]; cbn in Ha, H'; [destruct H' | discriminate].
  - destruct (App.mounted p && negb (App.isLoading (App.st p))
              && App.isAuthenticated (App.st p)) eqn:Hc; [|discriminate].
    injection Hstep as <-. intros Hin.
    apply andb_true_iff in Hc as [Hc Hauth]. apply andb_true_iff in Hc as [Hm _].
    destruct (commit_calm (App.clearAuth p)) as [_ A].
    destruct (A _ Hin) as [H|[l H]]; [|discriminate].
    destruct (clearAuth_calm p) as [_ A'].
    destruct (A' _ H) as [H'|[l H']]; [|discriminate].
    destruct (He H') as [_ Hf]. specialize (Hf Hm). congruence.
Qed.

Lemma step_exchange_alone (backend : string) (ev : App.event) (p p' : App.page) :
  settled p -> exchange_alone p -> App.step backend ev p = Some p' ->
  exchange_alone p'.
Proof.
  intros Hs He Hstep.
  destruct (step_exchange_over backend ev p p' Hs He Hstep) as [->|Hno].
  - cbn in Hstep. destruct (App.mounted p); [|discriminate].
    injection Hstep as <-. intros Hin.
    assert (Ha : App.awaiting (App.unmount p) = App.awaiting p).
    { unfold App.unmount. cbn. destruct (App.polling p) as [e|]; [|reflexivity].
      apply clearInterval_frame. }
    rewrite Ha in *. destruct (He Hin) as [Hone _].
    split; [exact Hone | discriminate].
  - intros Hin. contradiction.
Qed.

Lemma mount_exchange_alone (backend : string) (code : JS.value)
    (local session : gmap string string) :
  exchange_alone (App.mount backend code local session).
Proof.
  unfold exchange_alone, App.mount.
  destruct (commit_frame (App.startup backend code
              (App.run_polling (App.Page App.initial local session true None ∅ 1 [] []))))
    as (-> & _ & _ & _ & _ & ->).
  unfold App.startup. destruct (JS.truthy code).
  - unfold App.exchange_start. destruct (JS.falsy _).
    + rewrite update_awaiting.
      intros Hin. apply clearAuth_calm in Hin as [[]|[l H]]; discriminate.
    + cbn. intros _. auto.
  - destruct (JS.truthy _).
    + intros Hin. apply validate_start_calm in Hin as [Hin|[l H]]; [|discriminate].
      rewrite !update_awaiting in Hin. destruct Hin.
    + rewrite !update_awaiting. intros [].
Qed.

Lemma run_invariant (backend : string) (evs : list App.event) (p p' : App.page) :
  settled p -> exchange_alone p -> App.run backend evs p = Some p' ->
  settled p' /\ exchange_alone p'.
Proof.
  revert p. induction evs as [|ev evs IH]; intros p Hs He; cbn.
  - intros [= <-]. auto.
  - destruct (App.step backend ev p) as [p1|] eqn:E; [|discriminate].
    apply IH.
    + eapply step_settled; [apply Hs | exact E].
    + eapply step_exchange_alone; eauto.
Qed.

Lemma reachable_invariant (backend : string) (p : App.page) :
  reachable backend p -> settled p /\ exchange_alone p.
Proof.
  intros (code & local & session & evs & Hrun).
  eapply run_invariant; [apply mount_settled | apply mount_exchange_alone | exact Hrun].
Qed.

(** C8.  Take any page a session can reach and any event that leaves the
    component Invalid (not authenticated, no token) or torn down.  Then no
    interval is set any more, and whatever happens afterwards, no poll tick
    is among it and no interval is ever set again. *)
Theorem polling_stops
    (backend : string) (p p' : App.page) (ev : App.event) :
  reachable backend p ->
  App.step backend ev p = Some p' ->
  stopped p' ->
  App.timers p' = ∅
  /\ forall later p'',
       App.run backend later p' = Some p'' ->
       existsb App.is_tick later = false /\ App.timers p'' = ∅.
Proof.
  intros Hr Hstep Hstop.
  destruct (reachable_invariant backend p Hr) as [Hs He].
  assert (Hq : quiet p').
  { split; [eapply step_settled; [apply Hs | exact Hstep]|].
    destruct Hstop as [Hm|[_ Hnull]]; [left; exact Hm|].
    destruct (step_exchange_over backend ev p p' Hs He Hstep) as [->|Hno].
    - left. cbn in Hstep. destruct (App.mounted p); [|discriminate].
      injection Hstep as <-. reflexivity.
    - right. auto. }
  split; [apply quiet_no_timers, Hq|].
  intros later p'' Hrun. eapply quiet_run; eauto.
Qed.

Lemma polling_stops_witness :
  exists p',
    App.step "http://localhost:3000" (App.Settle 0 unauthorized) returning_session = Some p'
    /\ App.timers p' = ∅
    /\ forall later p'',
         App.run "http://localhost:3000" later p' = Some p'' ->
         existsb App.is_tick later = false /\ App.timers p'' = ∅.
Proof.
  eexists. split; [vm_compute; reflexivity|].
  eapply (polling_stops "http://localhost:3000" returning_session _
            (App.Settle 0 unauthorized)).
  - exists JS.VNull, (<["spotify_access_token" := "AT1"]> ∅), ∅, []. reflexivity.
  - vm_compute. reflexivity.
  - right. split; reflexivity.
Defined.

(** The specification's polling scenario: the validation at load and a
    first poll return a track, the second poll is answered 401.  The
    interval set at load ticks twice; after the 401 the track and the token
    are gone and the interval cannot tick a third time. *)
Example two_polls_then_unauthorized :
  App.timers returning_session !! 1%nat
  = Some (App.Closure (JS.VStr "AT1") true)
  /\ exists p,
       App.run "http://localhost:3000"
         [App.Settle 0 song; App.Tick 1; App.Settle 0 song;
          App.Tick 1; App.Settle 0 unauthorized]
         returning_session = Some p
       /\ App.st p = App.State JS.VNull false false JS.VNull
       /\ App.localStorage p !! "spotify_access_token" = None
       /\ List.length (App.requests p) = 3%nat
       /\ App.step "http://localhost:3000" (App.Tick 1) p = None.
Proof.
  split; [vm_compute; reflexivity|].
  eexists. split; [vm_compute; reflexivity|].
  vm_compute. repeat split; reflexivity.
Qed.

(** C2 seen from the client: the 500 that an item without album art
    produces logs the user out. *)
Example empty_images_logs_out :
  exists p,
    App.step "http://localhost:3000"
      (App.Settle 0 (Http.Reply 500 (Some "application/json")
                       (Http.Parsed (JS.VObj [("error", JS.VStr "Spotify API error during track fetch")]))))
      returning_session = Some p
    /\ App.st p = App.State JS.VNull false false JS.VNull
    /\ App.localStorage p !! "spotify_access_token" = None.
Proof.
  eexists. split; [vm_compute; reflexivity|].
  vm_compute. split; reflexivity.
Qed.

(* ===================================================================== *)
(** * Further properties of the code *)
(* ===================================================================== *)

(** ** The shape of a challenge *)

Lemma round_length (st : list Z) (kw : Z * Z) :
  List.length st = 8%nat -> List.length (SHA256.round st kw) = 8%nat.
Proof.
  destruct st as [|a [|b [|c [|d [|e [|f [|g [|h [|i r]]]]]]]]]; try discriminate.
  reflexivity.
Qed.

Lemma rounds_length (kws : list (Z * Z)) (st : list Z) :
  List.length st = 8%nat -> List.length (fold_left SHA256.round kws st) = 8%nat.
Proof.
  revert st. induction kws as [|kw kws IH]; intros st H; cbn; [exact H|].
  apply IH, round_length, H.
Qed.

Lemma compress_length (h block : list Z) :
  List.length h = 8%nat -> List.length (SHA256.compress h block) = 8%nat.
Proof.
  intros H. unfold SHA256.compress.
  rewrite List.length_map, List.length_combine, rounds_length, H by exact H.
  reflexivity.
Qed.

Lemma compressions_length (bls : list (list Z)) (h : list Z) :
  List.length h = 8%nat -> List.length (fold_left SHA256.compress bls h) = 8%nat.
Proof.
  revert h. induction bls as [|b bls IH]; intros h H; cbn; [exact H|].
  apply IH, compress_length, H.
Qed.

Lemma digest_length (msg : list Z) : List.length (SHA256.digest msg) = 32%nat.
Proof.
  unfold SHA256.digest.
  pose proof (compressions_length
                (SHA256.blocks (List.length (SHA256.pad msg)) (SHA256.pad msg))
                SHA256.H0 eq_refl) as H.
  revert H. generalize (fold_left SHA256.compress
                          (SHA256.blocks (List.length (SHA256.pad msg)) (SHA256.pad msg))
                          SHA256.H0).
  intros h H.
  assert (G : forall l, List.length (concat (map (SHA256.be_bytes 4) l))
                        = (4 * List.length l)%nat).
  { induction l as [|x l IH]; [reflexivity|].
    cbn [List.map List.concat List.length]. rewrite List.length_app, IH.
    unfold SHA256.be_bytes. rewrite List.length_map, List.length_rev, List.length_seq.
    lia. }
  rewrite G, H. reflexivity.
Qed.

Lemma url_sextet_safe (i : Z) : Spec.url_safe (Spec.url_sextet i) = true.
Proof.
  unfold Spec.url_sextet.
  destruct (get_in_range (Z.to_nat (i mod 64)) Spec.url_alphabet) as [c Hc].
  - pose proof (Z.mod_pos_bound i 64). change (String.length Spec.url_alphabet) with 64%nat.
    lia.
  - rewrite Hc. eapply get_forallb; [|exact Hc]. reflexivity.
Qed.

Lemma base64url_shape (bs : list Z) :
  String.length (Spec.base64url bs) = ((4 * List.length bs + 2) / 3)%nat
  /\ Str.forallb Spec.url_safe (Spec.base64url bs) = true.
Proof.
  induction bs as [|a|a b|a b c r [IHl IHf]] using list_ind3.
  - split; reflexivity.
  - split; [reflexivity|]. cbn [Spec.base64url Str.forallb].
    rewrite !url_sextet_safe. reflexivity.
  - split; [reflexivity|]. cbn [Spec.base64url Str.forallb].
    rewrite !url_sextet_safe. reflexivity.
  - split.
    + cbn [Spec.base64url String.length List.length]. rewrite IHl.
      replace (4 * S (S (S (List.length r))) + 2)%nat
        with (4 * List.length r + 2 + 4 * 3)%nat by lia.
      rewrite Nat.div_add by discriminate. lia.
    + cbn [Spec.base64url Str.forallb]. rewrite !url_sextet_safe, IHf. reflexivity.
Qed.

Lemma challenge_is_base64url (v : string) :
  App.generateCodeChallenge v = Spec.base64url (SHA256.digest (Str.bytes v))
  /\ Spotify.generateCodeChallenge v = Spec.base64url (SHA256.digest (Str.bytes v)).
Proof.
  split.
  - unfold App.generateCodeChallenge, Enc.btoa.
    rewrite bytes_of_bytes, digest_reduced. apply replace_strip_base64.
  - apply replace_strip_base64.
Qed.

(** X1.  Every challenge, from either derivation and for any verifier, has
    exactly 43 characters, all of them URL-safe. *)
Theorem challenge_shape (v : string) :
  String.length (App.generateCodeChallenge v) = 43%nat
  /\ Str.forallb Spec.url_safe (App.generateCodeChallenge v) = true
  /\ String.length (Spotify.generateCodeChallenge v) = 43%nat
  /\ Str.forallb Spec.url_safe (Spotify.generateCodeChallenge v) = true.
Proof.
  destruct (challenge_is_base64url v) as [-> ->].
  destruct (base64url_shape (SHA256.digest (Str.bytes v))) as [Hl Hf].
  rewrite Hl, Hf, digest_length. repeat split.
Qed.

(** ** What the encodings never emit *)

Lemma count_append (c : ascii) (s t : string) :
  count c (s +:+ t) = (count c s + count c t)%nat.
Proof.
  induction s as [|a r IH]; [reflexivity|].
  change (String a r +:+ t) with (String a (r +:+ t)).
  cbn [count]. rewrite IH. lia.
Qed.

Lemma count_excluded (p : ascii -> bool) (c : ascii) (s : string) :
  p c = false -> Str.forallb p s = true -> count c s = 0%nat.
Proof.
  intros Hc. induction s as [|a r IH]; cbn; [reflexivity|].
  intros H. apply andb_true_iff in H as [Ha Hr]. rewrite (IH Hr).
  destruct (Ascii.eqb a c) eqn:E; [|reflexivity].
  apply Ascii.eqb_eq in E. congruence.
Qed.

Lemma form_encode_safe (s : string) : Str.forallb form_safe (Http.form_encode s) = true.
Proof.
  induction s as [|a r IH]; [reflexivity|].
  cbn [Http.form_encode]. rewrite forallb_append, IH, andb_true_r.
  destruct a as [[] [] [] [] [] [] [] []]; reflexivity.
Qed.

Lemma encodeURIComponent_safe (s : string) :
  Str.forallb uri_safe (Http.encodeURIComponent s) = true.
Proof.
  induction s as [|a r IH]; [reflexivity|].
  cbn [Http.encodeURIComponent]. rewrite forallb_append, IH, andb_true_r.
  destruct a as [[] [] [] [] [] [] [] []]; reflexivity.
Qed.

Lemma search_params_separators (l : list (string * string)) :
  count "&" (Http.search_params l) = (List.length l - 1)%nat
  /\ count "=" (Http.search_params l) = List.length l.
Proof.
  assert (A : forall s, count "&" (Http.form_encode s) = 0%nat)
    by (intros s; apply (count_excluded form_safe); [reflexivity | apply form_encode_safe]).
  assert (E : forall s, count "=" (Http.form_encode s) = 0%nat)
    by (intros s; apply (count_excluded form_safe); [reflexivity | apply form_encode_safe]).
  induction l as [|[k v] l [IHa IHe]]; [split; reflexivity|].
  destruct l as [|kv l'].
  - cbn [Http.search_params]. rewrite !count_append, !A, !E. split; reflexivity.
  - set (rest := kv :: l') in *.
    change (Http.search_params ((k, v) :: rest))
      with (Http.form_encode k +:+ "=" +:+ Http.form_encode v +:+ "&"
            +:+ Http.search_params rest).
    rewrite !count_append, !A, !E, IHa, IHe. subst rest. cbn. split; lia.
Qed.

(** X2.  The body that [POST /exchange-token] sends to the provider has
    exactly five form parameters, whatever the code, the verifier and the
    environment contain: their text is encoded, so no [&] or [=] of theirs
    can add or split a parameter. *)
Theorem exchange_request_parameters
    (env : Server.environment) (code code_verifier : JS.value) :
  exists body,
    Http.payload (Server.exchange_request env code code_verifier) = Http.TextBody body
    /\ Http.method (Server.exchange_request env code code_verifier) = "POST"
    /\ Http.url (Server.exchange_request env code code_verifier) = Server.SPOTIFY_TOKEN_URL
    /\ count "&" body = 4%nat
    /\ count "=" body = 5%nat.
Proof.
  eexists. split; [reflexivity|]. split; [reflexivity|]. split; [reflexivity|].
  apply (search_params_separators
           [("grant_type", "authorization_code");
            ("code", JS.to_string code);
            ("redirect_uri", JS.to_string (Server.env_value (Server.SPOTIFY_REDIRECT_URI env)));
            ("client_id", JS.to_string (Server.env_value (Server.SPOTIFY_CLIENT_ID env)));
            ("code_verifier", JS.to_string code_verifier)]).
Qed.

(** X3.  When the provider's redirect carries an error, the indicator the
    relay forwards is percent-encoded: it consists of unreserved characters
    and [%] escapes only, so it stays one query parameter of the redirect. *)
Theorem callback_error_encoded
    (env : Server.environment) (query : list (string * JS.value)) :
  JS.truthy (JS.field "error" query) = true ->
  exists indicator,
    Server.callback env query
    = Server.Outcome
        (Server.Redirect (Server.FRONTEND_CALLBACK_URL env +:+ "?error=" +:+ indicator))
        []
    /\ Str.forallb uri_safe indicator = true
    /\ count "&" indicator = 0%nat
    /\ count "=" indicator = 0%nat
    /\ count "#" indicator = 0%nat.
Proof.
  intros H. unfold Server.callback. rewrite H.
  eexists. split; [reflexivity|].
  pose proof (encodeURIComponent_safe (JS.to_string (JS.field "error" query))) as Hs.
  split; [exact Hs|].
  repeat split; apply (count_excluded uri_safe); auto.
Qed.

Lemma callback_error_encoded_witness :
  exists indicator,
    Server.callback (Server.Environment None None None None)
      [("error", JS.VStr "a&b=c#d")]
    = Server.Outcome
        (Server.Redirect
           (Server.FRONTEND_CALLBACK_URL (Server.Environment None None None None)
            +:+ "?error=" +:+ indicator))
        []
    /\ Str.forallb uri_safe indicator = true
    /\ count "&" indicator = 0%nat
    /\ count "=" indicator = 0%nat
    /\ count "#" indicator = 0%nat.
Proof.
  apply (callback_error_encoded (Server.Environment None None None None)
           [("error", JS.VStr "a&b=c#d")]).
  reflexivity.
Defined.

(** ** The server's handlers on the provider's answers *)

Lemma jsonify_details (e : string) (d : JS.value) :
  JS.truthy d = true ->
  JS.jsonify (JS.VObj [("error", JS.VStr e); ("details", d)])
  = JS.VObj [("error", JS.VStr e); ("details", JS.jsonify d)].
Proof. destruct d; try discriminate; reflexivity. Qed.

Lemma status_or_500_answered (st : Z) (d : JS.value) (m : string) :
  st <> 0 -> Server.status_or_500 (JS.AxiosError (Some (st, d)) m) = st.
Proof.
  intros H. unfold Server.status_or_500, JS.or_else. cbn.
  apply Z.eqb_neq in H. rewrite H. reflexivity.
Qed.

(** X4.  When the provider refuses the exchange (an answer outside 2xx with
    a body), the handler answers with the provider's own status and puts the
    provider's body under [details]; when the provider cannot be reached it
    answers 500 with the transport's message. *)
Theorem exchange_token_failure
    (env : Server.environment) (provider : Http.request -> Http.reply)
    (body : list (string * JS.value)) :
  JS.truthy (JS.field "code" body) = true ->
  JS.truthy (JS.field "code_verifier" body) = true ->
  match provider (Server.exchange_request env (JS.field "code" body)
                    (JS.field "code_verifier" body)) with
  | Http.Reply status _ c =>
      Http.ok status = false -> status <> 0 -> JS.truthy (Http.data c) = true ->
      Server.sent (Server.exchange_token env provider body)
      = Server.Json status (exchange_error (JS.jsonify (Http.data c)))
  | Http.NetworkFailure m =>
      m <> "" ->
      Server.sent (Server.exchange_token env provider body)
      = Server.Json 500 (exchange_error (JS.VStr m))
  end.
Proof.
  intros Hc Hv. unfold Server.exchange_token, JS.falsy. rewrite Hc, Hv. cbn [negb orb].
  destruct (provider _) as [status ct c|m]; cbn [Http.axios].
  - intros Hok Hst Hd. rewrite Hok. cbn [JS.bind Server.sent].
    rewrite status_or_500_answered by exact Hst.
    cbn [JS.response_data JS.or_else]. unfold JS.or_else. rewrite Hd.
    rewrite jsonify_details by exact Hd. reflexivity.
  - intros Hm. cbn. destruct m as [|a r]; [contradiction|]. reflexivity.
Qed.

Lemma exchange_token_failure_witness :
  Server.sent
    (Server.exchange_token (Server.Environment (Some "id") (Some "secret") None None)
       (fun _ => Http.Reply 400 (Some "application/json")
                   (Http.Parsed (JS.VObj [("error", JS.VStr "invalid_grant")])))
       [("code", JS.VStr "XYZ"); ("code_verifier", JS.VStr "V1")])
  = Server.Json 400
      (exchange_error (JS.jsonify (JS.VObj [("error", JS.VStr "invalid_grant")]))).
Proof.
  apply (exchange_token_failure (Server.Environment (Some "id") (Some "secret") None None)
           (fun _ => Http.Reply 400 (Some "application/json")
                       (Http.Parsed (JS.VObj [("error", JS.VStr "invalid_grant")])))
           [("code", JS.VStr "XYZ"); ("code_verifier", JS.VStr "V1")]);
    try reflexivity; discriminate.
Defined.

Lemma bearer_token_round_trip (token : string) :
  Str.mem " " token = false ->
  Server.bearer_token (Some ("Bearer " +:+ token)) = JS.VStr token.
Proof.
  intros H. unfold Server.bearer_token.
  change ("Bearer " +:+ token) with ("Bearer" +:+ String " " token).
  rewrite split_at_first by reflexivity.
  rewrite (split_no_separator _ _ H). reflexivity.
Qed.

Lemma truthy_nonempty (s : string) : s <> "" -> JS.truthy (JS.VStr s) = true.
Proof. intros H. cbn. apply String.eqb_neq in H. rewrite H. reflexivity. Qed.



(** X6.  With a token in the header, the track proxy answers 204 with no
    body whenever the provider's successful answer is itself a 204, has an
    empty or null body, or has no [item]. *)
Theorem current_track_nothing_playing
    (provider : Http.request -> Http.reply) (token : string)
    (status : Z) (contentType : option string) (c : Http.content) :
  token <> "" ->
  Str.mem " " token = false ->
  provider (Server.playing_request (JS.VStr token)) = Http.Reply status contentType c ->
  Http.ok status = true ->
  status = 204 \/ JS.falsy (Http.data c) = true
  \/ JS.falsy (JS.get_opt (Http.data c) "item") = true ->
  Server.current_track provider (Some ("Bearer " +:+ token))
  = Server.Outcome (Server.Send 204) [Server.playing_request (JS.VStr token)].
Proof.
  intros Hne Hsp Hp Hok Hcase. unfold Server.current_track.
  rewrite (bearer_token_round_trip _ Hsp).
  unfold JS.falsy at 1. rewrite (truthy_nonempty _ Hne). cbn [negb].
  rewrite Hp. cbn [Http.axios]. rewrite Hok. cbn [JS.bind Server.track_of].
  destruct (status =? 204) eqn:E204; [reflexivity|].
  destruct (JS.falsy (Http.data c)) eqn:Ed; [reflexivity|]. cbn [orb].
  destruct Hcase as [->|[H|H]]; [discriminate | discriminate |].
  destruct (Http.data c) as [| |b|n|s|items|fs]; try discriminate; cbn in *;
    try reflexivity.
  rewrite H. reflexivity.
Qed.

Lemma current_track_nothing_playing_witness :
  Server.current_track
    (fun _ => Http.Reply 200 (Some "application/json")
                (Http.Parsed (JS.VObj [("is_playing", JS.VBool false)])))
    (Some ("Bearer " +:+ "AT1"))
  = Server.Outcome (Server.Send 204) [Server.playing_request (JS.VStr "AT1")].
Proof.
  apply (current_track_nothing_playing
           (fun _ => Http.Reply 200 (Some "application/json")
                       (Http.Parsed (JS.VObj [("is_playing", JS.VBool false)])))
           "AT1" 200 (Some "application/json")
           (Http.Parsed (JS.VObj [("is_playing", JS.VBool false)])));
    try reflexivity; try discriminate.
  right. right. reflexivity.
Defined.

(** X7.  When the provider refuses the proxied track request (an answer
    outside 2xx with a body), the proxy answers with the provider's status,
    so a provider 401 reaches the component as a 401; when the provider
    cannot be reached the proxy answers 500. *)
Theorem current_track_failure
    (provider : Http.request -> Http.reply) (token : string) :
  token <> "" ->
  Str.mem " " token = false ->
  match provider (Server.playing_request (JS.VStr token)) with
  | Http.Reply status _ c =>
      Http.ok status = false -> status <> 0 -> JS.truthy (Http.data c) = true ->
      Server.sent (Server.current_track provider (Some ("Bearer " +:+ token)))
      = Server.Json status (track_error (JS.jsonify (Http.data c)))
  | Http.NetworkFailure m =>
      m <> "" ->
      Server.sent (Server.current_track provider (Some ("Bearer " +:+ token)))
      = Server.Json 500 (track_error (JS.VStr m))
  end.
Proof.
  intros Hne Hsp. unfold Server.current_track.
  rewrite (bearer_token_round_trip _ Hsp).
  assert (Hf : JS.falsy (JS.VStr token) = false)
    by (unfold JS.falsy; rewrite (truthy_nonempty _ Hne); reflexivity).
  rewrite Hf.
  destruct (provider _) as [status ct c|m]; cbn [Http.axios].
  - intros Hok Hst Hd. rewrite Hok. cbn [JS.bind Server.sent].
    rewrite status_or_500_answered by exact Hst.
    cbn [JS.response_data]. unfold JS.or_else. rewrite Hd.
    rewrite jsonify_details by exact Hd. reflexivity.
  - intros Hm. cbn. destruct m as [|a r]; [contradiction|]. reflexivity.
Qed.

Lemma current_track_failure_witness :
  Server.sent
    (Server.current_track
       (fun _ => Http.Reply 401 (Some "application/json")
                   (Http.Parsed (JS.VObj [("error", JS.VStr "expired")])))
       (Some ("Bearer " +:+ "AT1")))
  = Server.Json 401 (track_error (JS.jsonify (JS.VObj [("error", JS.VStr "expired")]))).
Proof.
  apply (current_track_failure
           (fun _ => Http.Reply 401 (Some "application/json")
                       (Http.Parsed (JS.VObj [("error", JS.VStr "expired")])))
           "AT1"); try reflexivity; discriminate.
Defined.

(** ** Starting a login *)

Lemma url_sextet_base64url (i : Z) : base64url_char (Spec.url_sextet i) = true.
Proof.
  unfold Spec.url_sextet.
  destruct (get_in_range (Z.to_nat (i mod 64)) Spec.url_alphabet) as [c Hc].
  - pose proof (Z.mod_pos_bound i 64). change (String.length Spec.url_alphabet) with 64%nat.
    lia.
  - rewrite Hc. eapply get_forallb; [|exact Hc]. reflexivity.
Qed.

Lemma base64url_chars (bs : list Z) :
  Str.forallb base64url_char (Spec.base64url bs) = true.
Proof.
  induction bs as [|a|a b|a b c r IH] using list_ind3;
    cbn [Spec.base64url Str.forallb]; rewrite ?url_sextet_base64url, ?IH; reflexivity.
Qed.

Lemma form_encode_base64url (s : string) :
  Str.forallb base64url_char s = true -> Http.form_encode s = s.
Proof.
  induction s as [|a r IH]; [reflexivity|]. cbn [Str.forallb Http.form_encode].
  intros H. apply andb_true_iff in H as [Ha Hr]. rewrite (IH Hr).
  destruct a as [[] [] [] [] [] [] [] []];
    try reflexivity; vm_compute in Ha; discriminate Ha.
Qed.

Lemma form_encode_challenge (v : string) :
  Http.form_encode (App.generateCodeChallenge v) = App.generateCodeChallenge v
  /\ Http.form_encode (Spotify.generateCodeChallenge v) = Spotify.generateCodeChallenge v.
Proof.
  destruct (challenge_is_base64url v) as [-> ->].
  split; apply form_encode_base64url, base64url_chars.
Qed.

Lemma challenge_nonempty (v : string) : App.generateCodeChallenge v <> "".
Proof.
  rewrite (proj1 (challenge_is_base64url v)). intros H.
  pose proof (proj1 (base64url_shape (SHA256.digest (Str.bytes v)))) as Hl.
  rewrite H, digest_length in Hl. discriminate Hl.
Qed.




Lemma append_assoc (s t u : string) : (s +:+ t) +:+ u = s +:+ (t +:+ u).
Proof.
  induction s as [|a r IH]; [reflexivity|].
  change (String a ((r +:+ t) +:+ u) = String a (r +:+ (t +:+ u))).
  rewrite IH. reflexivity.
Qed.

(** X9.  [GET /login] without a challenge or without a challenge method
    (absent or empty) answers 400 and redirects nowhere. *)
Theorem login_missing_parameter
    (env : Server.environment) (query : list (string * JS.value)) :
  absent_or_empty (JS.field "code_challenge" query)
  \/ absent_or_empty (JS.field "code_challenge_method" query) ->
  Server.login env query
  = Server.Outcome
      (Server.Json 400
         (JS.VObj [("error",
            JS.VStr "Missing PKCE parameters (code_challenge or code_challenge_method)")]))
      [].
Proof.
  unfold Server.login, absent_or_empty.
  intros [[H|H]|[H|H]]; rewrite H; cbn; try reflexivity;
    rewrite orb_true_r; reflexivity.
Qed.

Lemma login_missing_parameter_witness :
  Server.login (Server.Environment (Some "id") None (Some "http://cb") None)
    [("code_challenge", JS.VStr "abc")]
  = Server.Outcome
      (Server.Json 400
         (JS.VObj [("error",
            JS.VStr "Missing PKCE parameters (code_challenge or code_challenge_method)")]))
      [].
Proof.
  apply login_missing_parameter. right. left. reflexivity.
Defined.

(** X10.  Given the challenge of a verifier and the method [S256],
    [GET /login] redirects to the provider's authorization address with the
    challenge verbatim as [code_challenge], followed by the method; it makes
    no request of its own. *)
Theorem login_redirects_with_challenge
    (env : Server.environment) (query : list (string * JS.value)) (verifier : string) :
  JS.field "code_challenge" query = JS.VStr (App.generateCodeChallenge verifier) ->
  JS.field "code_challenge_method" query = JS.VStr "S256" ->
  exists parameters,
    Server.login env query
    = Server.Outcome
        (Server.Redirect
           (Server.SPOTIFY_AUTH_URL +:+ "?response_type=code&" +:+ parameters
            +:+ "&code_challenge=" +:+ App.generateCodeChallenge verifier
            +:+ "&code_challenge_method=S256"))
        []
    /\ count "&" parameters = 2%nat.
Proof.
  intros Hc Hm. unfold Server.login. rewrite Hc, Hm.
  assert (Ht : JS.truthy (JS.VStr (App.generateCodeChallenge verifier)) = true).
  { apply truthy_nonempty, challenge_nonempty. }
  unfold JS.falsy. rewrite Ht. cbn [negb orb JS.truthy String.eqb Ascii.eqb Bool.eqb].
  cbn [Http.search_params JS.to_string].
  rewrite (proj1 (form_encode_challenge verifier)).
  exists ("client_id="
          +:+ Http.form_encode (JS.to_string (Server.env_value (Server.SPOTIFY_CLIENT_ID env)))
          +:+ "&scope=user-read-currently-playing+user-read-playback-state&redirect_uri="
          +:+ Http.form_encode (JS.to_string (Server.env_value (Server.SPOTIFY_REDIRECT_URI env)))).
  split.
  - rewrite !append_assoc. reflexivity.
  - rewrite !count_append.
    rewrite !(count_excluded form_safe "&" _ eq_refl (form_encode_safe _)).
    reflexivity.
Qed.

Lemma login_redirects_with_challenge_witness :
  exists parameters,
    Server.login (Server.Environment (Some "id") None (Some "http://cb") None)
      [("code_challenge", JS.VStr (App.generateCodeChallenge "test"));
       ("code_challenge_method", JS.VStr "S256")]
    = Server.Outcome
        (Server.Redirect
           (Server.SPOTIFY_AUTH_URL +:+ "?response_type=code&" +:+ parameters
            +:+ "&code_challenge=" +:+ App.generateCodeChallenge "test"
            +:+ "&code_challenge_method=S256"))
        []
    /\ count "&" parameters = 2%nat.
Proof.
  apply (login_redirects_with_challenge
           (Server.Environment (Some "id") None (Some "http://cb") None)
           [("code_challenge", JS.VStr (App.generateCodeChallenge "test"));
            ("code_challenge_method", JS.VStr "S256")]
           "test"); reflexivity.
Defined.

Lemma exchangeCodeForToken_sends
    (net : Spotify.network) (code : JS.value) (w : Spotify.world) (v : string) :
  Spotify.localStorage w !! "code_verifier" = Some v ->
  v <> "" ->
  Spotify.sent (snd (Spotify.exchangeCodeForToken net code w))
  = (Spotify.sent w
     ++ [Http.Request "POST" (Spotify.BACKEND_URL +:+ "/api/spotify/token")
           [("Content-Type", "application/json")]
           (Http.JsonBody (JS.VObj [("code", code); ("code_verifier", JS.VStr v)]))])%list.
Proof.
  intros Hv Hne.
  unfold Spotify.exchangeCodeForToken, Spotify.bind at 1, Spotify.getItem.
  cbn [fst snd]. rewrite Hv. unfold JS.falsy. rewrite (truthy_nonempty _ Hne). cbn [negb].
  unfold Spotify.try_catch, Spotify.bind, Spotify.axios_post, Spotify.send,
    Spotify.lift, Spotify.setItem, Spotify.Date_now, Spotify.ret, Spotify.throw.
  cbn [fst snd Spotify.sent Spotify.localStorage].
  destruct (Http.axios _) as [[status data]|e]; cbn [snd fst].
  - destruct (JS.get data "access_token") as [a|e1]; cbn;
      [destruct (JS.get data "refresh_token") as [r|e2]; cbn;
       [destruct (JS.get data "expires_in") as [x|e3]; cbn|]|];
      try reflexivity;
      match goal with |- context [JS.isAxiosError ?e] => destruct (JS.isAxiosError e) end;
      reflexivity.
  - destruct (JS.isAxiosError e); reflexivity.
Qed.

Lemma hex_nonempty (source : nat -> Z) :
  Enc.hex (Spotify.WordArray_random source 32) <> "".
Proof.
  intros H. pose proof (proj1 (hex_shape (Spotify.WordArray_random source 32))) as Hl.
  rewrite H in Hl. unfold Spotify.WordArray_random in Hl.
  rewrite List.length_map, List.length_seq in Hl. discriminate Hl.
Qed.

(** X11.  [getSpotifyAuthUrl] sends nothing; the address it returns ends in
    the challenge of the 64-character verifier it has put under
    [code_verifier], and a following [exchangeCodeForToken] posts exactly
    one request, carrying the given code and that verifier. *)
Theorem getSpotifyAuthUrl_round_trip
    (client_id redirect_uri code : JS.value) (source : nat -> Z)
    (net : Spotify.network) (w : Spotify.world) :
  let started := Login.getSpotifyAuthUrl client_id redirect_uri source w in
  exists verifier prefix,
    fst started
    = JS.Ok (prefix +:+ "&code_challenge=" +:+ Spotify.generateCodeChallenge verifier)
    /\ String.length verifier = 64%nat
    /\ Spotify.localStorage (snd started) !! "code_verifier" = Some verifier
    /\ Spotify.sent (snd started) = Spotify.sent w
    /\ Spotify.sent (snd (Spotify.exchangeCodeForToken net code (snd started)))
       = (Spotify.sent w
          ++ [Http.Request "POST" (Spotify.BACKEND_URL +:+ "/api/spotify/token")
                [("Content-Type", "application/json")]
                (Http.JsonBody (JS.VObj [("code", code);
                                         ("code_verifier", JS.VStr verifier)]))])%list.
Proof.
  intros started.
  exists (Enc.hex (Spotify.WordArray_random source 32)).
  exists ("https://accounts.spotify.com/authorize?response_type=code&client_id="
          +:+ Http.form_encode (JS.to_string client_id)
          +:+ "&scope=user-read-currently-playing&redirect_uri="
          +:+ Http.form_encode (JS.to_string redirect_uri)
          +:+ "&code_challenge_method=S256").
  assert (Hs : Spotify.localStorage (snd started) !! "code_verifier"
               = Some (Enc.hex (Spotify.WordArray_random source 32)))
    by apply lookup_insert_eq.
  split; [|split; [|split; [exact Hs|split; [reflexivity|]]]].
  - unfold started, Login.getSpotifyAuthUrl, Spotify.generateCodeVerifier,
      Spotify.bind, Spotify.setItem, Spotify.ret.
    cbn [fst snd Http.search_params].
    rewrite (proj2 (form_encode_challenge _)).
    generalize (Spotify.generateCodeChallenge
                  (Enc.hex (Spotify.WordArray_random source 32))).
    generalize (Http.form_encode (JS.to_string client_id)).
    generalize (Http.form_encode (JS.to_string redirect_uri)).
    intros u i c. rewrite !append_assoc. reflexivity.
  - rewrite (proj1 (hex_shape _)). unfold Spotify.WordArray_random.
    rewrite List.length_map, List.length_seq. reflexivity.
  - rewrite (exchangeCodeForToken_sends net code (snd started) _ Hs (hex_nonempty source)).
    reflexivity.
Qed.

(** ** The callback component *)

Lemma handleCallback_keeps (net : Spotify.network) (code : JS.value) :
  keeps "spotify_access_token" (Login.handleCallback net code).
Proof. unfold Login.handleCallback. auto 20 with frame. Qed.

Lemma mount_without_token (backend : string) (local session : gmap string string) :
  local !! "spotify_access_token" = None ->
  App.mount backend JS.VNull local session
  = App.Page (App.State JS.VNull false false JS.VNull) local session true
      (Some (App.Effect (false, JS.VNull) None)) ∅ 1 [] [].
Proof.
  intros H. unfold App.mount, App.startup, App.getItem. cbn. rewrite H. reflexivity.
Qed.

(** X12.  [CallbackHandler] sends at most one request, goes back to [/]
    exactly when the address had a code, and never writes the key under
    which the [App] component keeps its token: a page loaded after it,
    without a code, is not authenticated, sends nothing and polls nothing. *)
Theorem handleCallback_not_seen_by_App
    (backend : string) (net : Spotify.network) (code : JS.value)
    (w : Spotify.world) (session : gmap string string) :
  Spotify.localStorage w !! "spotify_access_token" = None ->
  let after := Login.handleCallback net code w in
  fst after = JS.Ok (if JS.truthy code then Some "/" else None)
  /\ (exists more, Spotify.sent (snd after) = (Spotify.sent w ++ more)%list
                   /\ (List.length more <= 1)%nat)
  /\ App.mount backend JS.VNull (Spotify.localStorage (snd after)) session
     = App.Page (App.State JS.VNull false false JS.VNull)
         (Spotify.localStorage (snd after)) session true
         (Some (App.Effect (false, JS.VNull) None)) ∅ 1 [] [].
Proof.
  intros H after. split; [|split].
  - unfold after, Login.handleCallback. destruct (JS.truthy code); [|reflexivity].
    unfold Spotify.try_catch, Spotify.bind, Spotify.send, Spotify.lift,
      Spotify.setItem, Spotify.ret. cbn [fst snd].
    destruct (Http.axios _) as [[status data]|e]; cbn [fst snd]; [|reflexivity].
    destruct (JS.get data "access_token"); reflexivity.
  - unfold after, Login.handleCallback. destruct (JS.truthy code).
    + unfold Spotify.try_catch, Spotify.bind, Spotify.send, Spotify.lift,
        Spotify.setItem, Spotify.ret. cbn [fst snd].
      eexists [_]. split; [|cbn; lia].
      destruct (Http.axios _) as [[status data]|e]; cbn [fst snd]; [|reflexivity].
      destruct (JS.get data "access_token"); reflexivity.
    + exists []. split; [symmetry; apply List.app_nil_r | cbn; lia].
  - apply mount_without_token. unfold after. rewrite handleCallback_keeps. exact H.
Qed.

Lemma handleCallback_not_seen_by_App_witness :
  let after := Login.handleCallback refreshing_network (JS.VStr "XYZ") valid_world in
  fst after = JS.Ok (if JS.truthy (JS.VStr "XYZ") then Some "/" else None)
  /\ (exists more, Spotify.sent (snd after) = (Spotify.sent valid_world ++ more)%list
                   /\ (List.length more <= 1)%nat)
  /\ App.mount "http://localhost:3000" JS.VNull (Spotify.localStorage (snd after)) ∅
     = App.Page (App.State JS.VNull false false JS.VNull)
         (Spotify.localStorage (snd after)) ∅ true
         (Some (App.Effect (false, JS.VNull) None)) ∅ 1 [] [].
Proof.
  apply (handleCallback_not_seen_by_App "http://localhost:3000" refreshing_network
           (JS.VStr "XYZ") valid_world ∅).
  reflexivity.
Defined.

(** ** Numbers written to storage and read back *)










(** ** The helper's calls: errors, bounds and the valid-token path *)

Lemma missing_falsy (w : Spotify.world) (k : string) :
  missing w k ->
  Spotify.getItem k w = (JS.Ok JS.VNull, w) \/ Spotify.getItem k w = (JS.Ok (JS.VStr ""), w).
Proof. unfold Spotify.getItem. intros [->| ->]; auto. Qed.

(** X14.  Each call of the helper that needs a stored credential throws its
    own error, sends nothing and changes nothing when that credential is
    missing or empty: the verifier for [exchangeCodeForToken], the refresh
    token for [refreshAccessToken], the access token for
    [getCurrentlyPlaying]. *)
Theorem missing_credentials
    (net : Spotify.network) (code : JS.value) (w : Spotify.world) :
  (missing w "code_verifier" ->
   Spotify.exchangeCodeForToken net code w
   = (JS.Throw (JS.Error "No code verifier found. Please try logging in again."), w))
  /\ (missing w "refresh_token" ->
      Spotify.refreshAccessToken net w
      = (JS.Throw (JS.Error "No refresh token available"), w))
  /\ (missing w "access_token" ->
      Spotify.getCurrentlyPlaying net w
      = (JS.Throw (JS.Error "No access token available"), w)).
Proof.
  split; [|split]; intros H.
  - unfold Spotify.exchangeCodeForToken, Spotify.bind at 1.
    destruct (missing_falsy w _ H) as [-> | ->]; reflexivity.
  - unfold Spotify.refreshAccessToken, Spotify.bind at 1.
    destruct (missing_falsy w _ H) as [-> | ->]; reflexivity.
  - unfold Spotify.getCurrentlyPlaying, Spotify.bind at 1.
    destruct (missing_falsy w _ H) as [-> | ->]; reflexivity.
Qed.

Lemma missing_credentials_witness :
  Spotify.exchangeCodeForToken refreshing_network (JS.VStr "XYZ") (Spotify.World ∅ [])
  = (JS.Throw (JS.Error "No code verifier found. Please try logging in again."),
     Spotify.World ∅ [])
  /\ Spotify.refreshAccessToken refreshing_network (Spotify.World ∅ [])
     = (JS.Throw (JS.Error "No refresh token available"), Spotify.World ∅ [])
  /\ Spotify.getCurrentlyPlaying refreshing_network (Spotify.World ∅ [])
     = (JS.Throw (JS.Error "No access token available"), Spotify.World ∅ []).
Proof.
  destruct (missing_credentials refreshing_network (JS.VStr "XYZ") (Spotify.World ∅ []))
    as (H1 & H2 & H3).
  split; [apply H1|split; [apply H2 | apply H3]]; left; reflexivity.
Defined.

(** X15.  A refresh that fails is atomic: whenever [refreshAccessToken]
    throws, durable storage is exactly as before, and what it throws is
    never the axios error itself. *)
Theorem refresh_failure_changes_nothing
    (net : Spotify.network) (w : Spotify.world) (e : JS.error) :
  fst (Spotify.refreshAccessToken net w) = JS.Throw e ->
  Spotify.localStorage (snd (Spotify.refreshAccessToken net w)) = Spotify.localStorage w
  /\ JS.isAxiosError e = false.
Proof.
  destruct (Spotify.refreshAccessToken net w) as [res w'] eqn:E.
  cbn [fst snd]. intros ->. revert E.
  unfold Spotify.refreshAccessToken, Spotify.try_catch, Spotify.bind,
    Spotify.getItem, Spotify.axios_post, Spotify.send, Spotify.lift,
    Spotify.setItem, Spotify.Date_now, Spotify.ret, Spotify.throw.
  destruct (JS.falsy _).
  { intros [= <- <-]. auto. }
  destruct (Http.axios _) as [[status data]|e0].
  - destruct data; cbn; try discriminate; intros [= <- <-]; auto.
  - destruct e0 as [m|m|m|resp m]; cbn; intros [= <- <-]; auto.
Qed.

Lemma refresh_failure_changes_nothing_witness :
  Spotify.localStorage
    (snd (Spotify.refreshAccessToken
            (Spotify.Network (fun _ _ => Http.NetworkFailure "offline") (fun _ => 0))
            expired_world))
  = Spotify.localStorage expired_world
  /\ JS.isAxiosError (JS.Error "Failed to refresh token") = false.
Proof.
  apply (refresh_failure_changes_nothing
           (Spotify.Network (fun _ _ => Http.NetworkFailure "offline") (fun _ => 0))
           expired_world).
  reflexivity.
Defined.




Section Bounds.
Context {A B : Type}.

Lemma sends_nothing (m : Spotify.M A) :
  (forall w, Spotify.sent (snd (m w)) = Spotify.sent w) -> sends_at_most 0 m.
Proof.
  intros H w. exists []. rewrite H. split; [symmetry; apply List.app_nil_r | reflexivity].
Qed.

Lemma sends_weaken (n n' : nat) (m : Spotify.M A) :
  (n <= n')%nat -> sends_at_most n m -> sends_at_most n' m.
Proof. intros Hn H w. destruct (H w) as (more & E & L). exists more. split; [exact E | lia]. Qed.

Lemma sends_bind (a b : nat) (m : Spotify.M A) (f : A -> Spotify.M B) :
  sends_at_most a m -> (forall x, sends_at_most b (f x)) ->
  sends_at_most (a + b) (Spotify.bind m f).
Proof.
  intros Hm Hf w. unfold Spotify.bind. destruct (Hm w) as (l1 & E1 & L1).
  destruct (m w) as [[x|e] w']; cbn [fst snd] in *.
  - destruct (Hf x w') as (l2 & E2 & L2). exists (l1 ++ l2)%list.
    rewrite E2, E1, List.length_app. split; [symmetry; apply List.app_assoc | lia].
  - exists l1. split; [exact E1 | lia].
Qed.

Lemma sends_try_catch (a b : nat) (m : Spotify.M A) (h : JS.error -> Spotify.M A) :
  sends_at_most a m -> (forall e, sends_at_most b (h e)) ->
  sends_at_most (a + b) (Spotify.try_catch m h).
Proof.
  intros Hm Hh w. unfold Spotify.try_catch. destruct (Hm w) as (l1 & E1 & L1).
  destruct (m w) as [[x|e] w']; cbn [fst snd] in *.
  - exists l1. split; [exact E1 | lia].
  - destruct (Hh e w') as (l2 & E2 & L2). exists (l1 ++ l2)%list.
    rewrite E2, E1, List.length_app. split; [symmetry; apply List.app_assoc | lia].
Qed.

End Bounds.

Lemma sends_one (net : Spotify.network) (req : Http.request) :
  sends_at_most 1 (Spotify.send net req).
Proof. intros w. exists [req]. split; reflexivity. Qed.

Lemma refreshAccessToken_sends_at_most (net : Spotify.network) :
  sends_at_most 1 (Spotify.refreshAccessToken net).
Proof.
  unfold Spotify.refreshAccessToken.
  apply (sends_bind 0 1); [apply sends_nothing; reflexivity|]. intros refresh_token.
  destruct (JS.falsy refresh_token).
  { apply (sends_weaken 0); [lia | apply sends_nothing; reflexivity]. }
  apply (sends_try_catch 1 0).
  - apply (sends_bind 1 0); [apply sends_one|]. intros response.
    apply sends_nothing. intros w.
    unfold Spotify.bind, Spotify.lift, Spotify.setItem, Spotify.Date_now, Spotify.ret.
    destruct (JS.get (snd response) "access_token"); cbn; [|reflexivity].
    destruct (JS.get (snd response) "expires_in"); reflexivity.
  - intros e. apply sends_nothing. intros w. destruct (JS.isAxiosError e); reflexivity.
Qed.

(** X17.  No call loops: [refreshAccessToken] sends at most one request,
    and [getCurrentlyPlaying] at most four (a refresh before the protected
    request, the request, and after a 401 one more refresh and one more
    request), whatever the network answers. *)
Theorem requests_are_bounded (net : Spotify.network) (w : Spotify.world) :
  (exists more,
     Spotify.sent (snd (Spotify.refreshAccessToken net w)) = (Spotify.sent w ++ more)%list
     /\ (List.length more <= 1)%nat)
  /\ (exists more,
        Spotify.sent (snd (Spotify.getCurrentlyPlaying net w)) = (Spotify.sent w ++ more)%list
        /\ (List.length more <= 4)%nat).
Proof.
  split; [apply refreshAccessToken_sends_at_most|].
  revert w. change (sends_at_most 4 (Spotify.getCurrentlyPlaying net)).
  pose proof (refreshAccessToken_sends_at_most net) as Hr.
  unfold Spotify.getCurrentlyPlaying.
  apply (sends_bind 0 4); [apply sends_nothing; reflexivity|]. intros access_token.
  apply (sends_bind 0 4); [apply sends_nothing; reflexivity|]. intros token_expiry.
  destruct (JS.falsy access_token).
  { apply (sends_weaken 0); [lia | apply sends_nothing; reflexivity]. }
  apply (sends_bind 0 4).
  { apply sends_nothing. intros w. unfold Spotify.expired.
    destruct (JS.truthy token_expiry); reflexivity. }
  intros stale. apply (sends_bind 1 3).
  { destruct stale; [|apply (sends_weaken 0); [lia | apply sends_nothing; reflexivity]].
    apply (sends_try_catch 1 0).
    - apply (sends_bind 1 0); [exact Hr|]. intros _. apply sends_nothing. reflexivity.
    - intros e. apply sends_nothing. reflexivity. }
  intros _. apply (sends_try_catch 1 2).
  - apply (sends_bind 1 0); [apply sends_one|]. intros r. apply sends_nothing. reflexivity.
  - intros e. destruct (_ && _).
    + apply (sends_try_catch 2 0).
      * apply (sends_bind 1 1); [exact Hr|]. intros t.
        apply (sends_bind 1 0); [apply sends_one|]. intros r.
        apply sends_nothing. reflexivity.
      * intros e'. apply sends_nothing. reflexivity.
    + apply (sends_weaken 0); [lia | apply sends_nothing; reflexivity].
Qed.

(** The bound is reached. *)
Example four_requests :
  map Http.method
    (Spotify.sent
       (snd (Spotify.getCurrentlyPlaying
               (Spotify.Network
                  (fun history req =>
                     if String.eqb (Http.method req) "POST" then
                       Http.Reply 200 (Some "application/json")
                         (Http.Parsed (JS.VObj [("access_token", JS.VStr "new");
                                                ("expires_in", JS.VNum 3600)]))
                     else Http.Reply 401 None (Http.Raw ""))
                  (fun _ => 2000))
               expired_world)))
  = ["POST"; "GET"; "POST"; "GET"].
Proof. vm_compute. reflexivity. Qed.

(** ** The component on the answers to its fetches *)

Lemma update_keeps (f : App.state -> App.state) (p : App.page) :
  App.localStorage (App.update f p) = App.localStorage p
  /\ App.sessionStorage (App.update f p) = App.sessionStorage p
  /\ App.requests (App.update f p) = App.requests p
  /\ App.mounted (App.update f p) = App.mounted p.
Proof. unfold App.update. destruct (App.mounted p) eqn:E; cbn; auto. Qed.

Lemma clearAuth_logged_out (p : App.page) :
  App.mounted p = true -> logged_out (App.clearAuth p).
Proof.
  intros Hm. destruct (clearAuth_clears p) as (Hl & Hs & _ & _ & Hst).
  unfold logged_out. rewrite (Hst Hm). cbn. auto.
Qed.

Lemma logged_out_loading (p : App.page) :
  logged_out p -> logged_out (App.update (App.setIsLoading false) p).
Proof.
  unfold logged_out. destruct (update_keeps (App.setIsLoading false) p) as (-> & -> & _ & _).
  unfold App.update. destruct (App.mounted p); cbn; tauto.
Qed.

Lemma logged_out_commit (p : App.page) : logged_out p -> logged_out (App.commit p).
Proof.
  unfold logged_out. destruct (commit_frame p) as (-> & -> & -> & _). tauto.
Qed.

Lemma validate_try_failure (r : Http.reply) (p : App.page) :
  fetch_fails r ->
  App.validate_try r p = None \/ App.validate_try r p = Some (App.clearAuth p).
Proof.
  destruct r as [status ct c|m]; cbn; [|auto].
  intros Hok. destruct (status =? 401); [auto|].
  destruct (status =? 204) eqn:E; [apply Z.eqb_eq in E; subst; discriminate|].
  rewrite Hok. auto.
Qed.

Lemma settle_failure (backend : string) (p : App.page) (i : nat) (l : bool) (r : Http.reply) :
  App.mounted p = true ->
  App.awaiting p !! i = Some (App.AwaitValidate l) ->
  fetch_fails r ->
  exists p',
    App.step backend (App.Settle i r) p = Some p'
    /\ logged_out p'
    /\ App.requests p' = App.requests p.
Proof.
  intros Hm Ha Hr. eexists. split; [unfold App.step; rewrite Ha; reflexivity|].
  assert (Hm' : App.mounted (App.drop_awaiting i p) = true) by exact Hm.
  assert (E : match App.validate_try r (App.drop_awaiting i p) with
              | Some p' => p'
              | None => App.clearAuth (App.drop_awaiting i p)
              end = App.clearAuth (App.drop_awaiting i p)).
  { destruct (validate_try_failure r (App.drop_awaiting i p) Hr) as [-> | ->]; reflexivity. }
  unfold App.validate_resume. rewrite E.
  pose proof (clearAuth_logged_out _ Hm') as Hout.
  destruct (clearAuth_clears (App.drop_awaiting i p)) as (_ & _ & Hreq & _).
  split.
  - apply logged_out_commit. destruct l; [apply logged_out_loading|]; exact Hout.
  - rewrite (proj1 (proj2 (proj2 (proj2 (proj2 (commit_frame _)))))).
    destruct l; [rewrite (proj1 (proj2 (proj2 (update_keeps _ _))))|]; exact Hreq.
Qed.

(** X18.  Every failed fetch of the track logs the user out, not only a
    401: when the transport fails or the answer is outside 2xx, the
    component ends Invalid with both storages cleared, and sends nothing
    more. *)
Theorem failed_fetch_logs_out
    (backend : string) (p : App.page) (i : nat) (l : bool) (r : Http.reply) :
  App.mounted p = true ->
  App.awaiting p !! i = Some (App.AwaitValidate l) ->
  fetch_fails r ->
  exists p',
    App.step backend (App.Settle i r) p = Some p'
    /\ logged_out p'
    /\ App.requests p' = App.requests p.
Proof. apply settle_failure. Qed.

Lemma failed_fetch_logs_out_witness :
  exists p',
    App.step "http://localhost:3000"
      (App.Settle 0 (Http.NetworkFailure "Failed to fetch")) returning_session = Some p'
    /\ logged_out p'
    /\ App.requests p' = App.requests returning_session.
Proof.
  apply (failed_fetch_logs_out "http://localhost:3000" returning_session 0 true
           (Http.NetworkFailure "Failed to fetch")).
  - vm_compute. reflexivity.
  - vm_compute. reflexivity.
  - exact I.
Defined.

Lemma settle_no_content (backend : string) (p : App.page) (i : nat) (l : bool)
    (contentType : option string) (c : Http.content) :
  App.mounted p = true ->
  App.awaiting p !! i = Some (App.AwaitValidate l) ->
  exists p',
    App.step backend (App.Settle i (Http.Reply 204 contentType c)) p = Some p'
    /\ App.st p' = App.State JS.VNull (if l then false else App.isLoading (App.st p))
                     true (App.accessToken (App.st p))
    /\ App.localStorage p' = App.localStorage p
    /\ App.sessionStorage p' = App.sessionStorage p
    /\ App.requests p' = App.requests p.
Proof.
  intros Hm Ha. eexists. split; [unfold App.step; rewrite Ha; reflexivity|].
  destruct (commit_frame
              (App.validate_resume l (Http.Reply 204 contentType c) (App.drop_awaiting i p)))
    as (-> & -> & -> & _ & -> & _).
  unfold App.validate_resume, App.validate_try. cbn [Z.eqb Pos.eqb].
  destruct p as [s ls ss m e t n rq aw]. cbn in Hm. subst m.
  unfold App.update, App.drop_awaiting. destruct l; cbn; auto.
Qed.

(** X19.  A 204 from the proxy is not an error: the track becomes [null],
    the component stays authenticated with the token it has, both storages
    and the requests are as before. *)
Theorem no_content_keeps_session
    (backend : string) (p : App.page) (i : nat) (l : bool)
    (contentType : option string) (c : Http.content) :
  App.mounted p = true ->
  App.awaiting p !! i = Some (App.AwaitValidate l) ->
  exists p',
    App.step backend (App.Settle i (Http.Reply 204 contentType c)) p = Some p'
    /\ App.st p' = App.State JS.VNull (if l then false else App.isLoading (App.st p))
                     true (App.accessToken (App.st p))
    /\ App.localStorage p' = App.localStorage p
    /\ App.sessionStorage p' = App.sessionStorage p
    /\ App.requests p' = App.requests p.
Proof. apply settle_no_content. Qed.

Lemma no_content_keeps_session_witness :
  exists p',
    App.step "http://localhost:3000" (App.Settle 0 (Http.Reply 204 None (Http.Raw "")))
      returning_session = Some p'
    /\ App.st p' = App.State JS.VNull
                     (if true then false else App.isLoading (App.st returning_session))
                     true (App.accessToken (App.st returning_session))
    /\ App.localStorage p' = App.localStorage returning_session
    /\ App.sessionStorage p' = App.sessionStorage returning_session
    /\ App.requests p' = App.requests returning_session.
Proof.
  apply (no_content_keeps_session "http://localhost:3000" returning_session 0 true
           None (Http.Raw "")).
  - vm_compute. reflexivity.
  - vm_compute. reflexivity.
Defined.

(** ** The exchange in the component *)

Lemma clearAuth_session (p : App.page) :
  App.sessionStorage (App.clearAuth p) !! "spotify_code_verifier" = None.
Proof. apply clearAuth_clears. Qed.

Lemma validate_start_session (backend : string) (l : bool) (t : JS.value) (p : App.page) :
  App.sessionStorage p !! "spotify_code_verifier" = None ->
  App.sessionStorage (App.validate_start backend l t p) !! "spotify_code_verifier" = None.
Proof.
  intros H. unfold App.validate_start. destruct (JS.falsy t); [|exact H].
  rewrite (proj1 (proj2 (update_keeps _ _))). apply clearAuth_session.
Qed.

(** X20.  The verifier never survives an exchange attempt: however the
    exchange request is answered (success, refusal, unreadable body or
    transport failure), session storage holds no verifier afterwards. *)
Theorem exchange_consumes_verifier
    (backend : string) (p : App.page) (i : nat) (r : Http.reply) :
  App.awaiting p !! i = Some App.AwaitExchange ->
  exists p',
    App.step backend (App.Settle i r) p = Some p'
    /\ App.sessionStorage p' !! "spotify_code_verifier" = None.
Proof.
  intros Ha. eexists. split; [unfold App.step; rewrite Ha; reflexivity|].
  rewrite (proj1 (proj2 (proj2 (commit_frame _)))).
  unfold App.exchange_resume.
  destruct r as [status ct c|m]; [|apply clearAuth_session].
  destruct (negb (Http.ok status)); [apply clearAuth_session|].
  destruct (JS.bind _ _) as [t|e]; [|apply clearAuth_session].
  apply validate_start_session.
  rewrite !(proj1 (proj2 (update_keeps _ _))). cbn. apply lookup_delete_eq.
Qed.

Lemma exchange_consumes_verifier_witness :
  exists p',
    App.step "http://localhost:3000" (App.Settle 0 (Http.NetworkFailure "Failed to fetch"))
      (App.mount "http://localhost:3000" (JS.VStr "XYZ") ∅
         (<["spotify_code_verifier" := "V1"]> ∅)) = Some p'
    /\ App.sessionStorage p' !! "spotify_code_verifier" = None.
Proof.
  apply (exchange_consumes_verifier "http://localhost:3000"
           (App.mount "http://localhost:3000" (JS.VStr "XYZ") ∅
              (<["spotify_code_verifier" := "V1"]> ∅))
           0 (Http.NetworkFailure "Failed to fetch")).
  vm_compute. reflexivity.
Defined.



(** X22.  Loading the page with a [code] but no verifier in session
    storage sends no exchange request: the component is reset at once
    (Invalid, storages cleared, not loading) and nothing is awaited. *)
Theorem mount_without_verifier
    (backend : string) (code : JS.value) (local session : gmap string string) :
  JS.truthy code = true ->
  session !! "spotify_code_verifier" = None \/ session !! "spotify_code_verifier" = Some "" ->
  let p := App.mount backend code local session in
  logged_out p
  /\ App.isLoading (App.st p) = false
  /\ App.requests p = []
  /\ App.awaiting p = []
  /\ App.timers p = ∅.
Proof.
  intros Hc Hs p.
  assert (E : p = App.commit (App.update (App.setIsLoading false)
                (App.clearAuth (App.run_polling
                   (App.Page App.initial local session true None ∅ 1 [] []))))).
  { unfold p, App.mount, App.startup. rewrite Hc. unfold App.exchange_start, App.getItem.
    cbn [App.run_polling App.initial App.isAuthenticated App.st andb App.sessionStorage].
    destruct Hs as [-> | ->]; reflexivity. }
  clearbody p. subst p. unfold logged_out. cbn. rewrite !lookup_delete_eq. auto 10.
Qed.

Lemma mount_without_verifier_witness :
  let p := App.mount "http://localhost:3000" (JS.VStr "XYZ")
             (<["spotify_access_token" := "AT1"]> ∅) ∅ in
  logged_out p
  /\ App.isLoading (App.st p) = false
  /\ App.requests p = []
  /\ App.awaiting p = []
  /\ App.timers p = ∅.
Proof.
  apply (mount_without_verifier "http://localhost:3000" (JS.VStr "XYZ")
           (<["spotify_access_token" := "AT1"]> ∅) ∅).
  - reflexivity.
  - left. reflexivity.
Defined.

(** ** What every reachable page satisfies *)

Lemma polling_current_frame (p q : App.page) :
  same_polling p q -> polling_current p -> polling_current q.
Proof. unfold same_polling, polling_current. intros (-> & -> & _ & _). tauto. Qed.

Lemma run_polling_current (p : App.page) :
  App.timers p = ∅ -> polling_current (App.run_polling p).
Proof.
  intros Ht. unfold App.run_polling, polling_current.
  destruct (App.isAuthenticated (App.st p) && JS.truthy (App.accessToken (App.st p)))
    eqn:E; cbn.
  - rewrite Ht. eexists. apply insert_empty.
  - exact E.
Qed.

Lemma commit_polling_current (p : App.page) :
  timers_tracked p -> polling_current p -> polling_current (App.commit p).
Proof.
  intros Ht Hc. unfold App.commit.
  destruct (App.mounted p); [|exact Hc].
  destruct (App.polling p) as [e|] eqn:He.
  - destruct (App.same_deps _ _); [exact Hc|].
    apply run_polling_current. apply (clearInterval_tracked p e Ht He).
  - apply run_polling_current. unfold timers_tracked in Ht. rewrite He in Ht. apply Ht.
Qed.

Lemma step_polling_current (backend : string) (ev : App.event) (p p' : App.page) :
  timers_tracked p -> polling_current p -> App.step backend ev p = Some p' ->
  polling_current p'.
Proof.
  intros Ht Hc. destruct ev as [id|i r| |]; cbn.
  - destruct (App.timers p !! id) as [c|]; [|discriminate]. intros [= <-].
    apply commit_polling_current.
    + eapply timers_tracked_frame; [apply validate_start_same_polling | exact Ht].
    + eapply polling_current_frame; [apply validate_start_same_polling | exact Hc].
  - destruct (App.awaiting p !! i) as [[l|]|]; [| |discriminate]; intros [= <-];
      apply commit_polling_current.
    + eapply timers_tracked_frame; [apply validate_resume_same_polling|].
      eapply timers_tracked_frame; [apply drop_awaiting_same_polling | exact Ht].
    + eapply polling_current_frame; [apply validate_resume_same_polling|].
      eapply polling_current_frame; [apply drop_awaiting_same_polling | exact Hc].
    + eapply timers_tracked_frame; [apply exchange_resume_same_polling|].
      eapply timers_tracked_frame; [apply drop_awaiting_same_polling | exact Ht].
    + eapply polling_current_frame; [apply exchange_resume_same_polling|].
      eapply polling_current_frame; [apply drop_awaiting_same_polling | exact Hc].
  - destruct (_ && _); [|discriminate]. intros [= <-]. apply commit_polling_current.
    + eapply timers_tracked_frame; [apply clearAuth_same_polling | exact Ht].
    + eapply polling_current_frame; [apply clearAuth_same_polling | exact Hc].
  - destruct (App.mounted p); [|discriminate]. intros [= <-]. exact I.
Qed.

Lemma run_polling_current_invariant
    (backend : string) (evs : list App.event) (p p' : App.page) :
  settled p -> polling_current p -> App.run backend evs p = Some p' ->
  settled p' /\ polling_current p'.
Proof.
  revert p. induction evs as [|ev evs IH]; intros p Hs Hc; cbn.
  - intros [= <-]. auto.
  - destruct (App.step backend ev p) as [p1|] eqn:E; [|discriminate].
    apply IH.
    + eapply step_settled; [apply Hs | exact E].
    + eapply step_polling_current; [apply Hs | exact Hc | exact E].
Qed.

Lemma mount_polling_current (backend : string) (code : JS.value)
    (local session : gmap string string) :
  polling_current (App.mount backend code local session).
Proof.
  unfold App.mount. apply commit_polling_current.
  - eapply timers_tracked_frame; [apply startup_same_polling|].
    unfold timers_tracked. cbn. repeat split; auto; lia.
  - eapply polling_current_frame; [apply startup_same_polling|].
    unfold polling_current. cbn. reflexivity.
Qed.

(** X23.  In every page a session can reach, a mounted, authenticated
    component holding a token has exactly one interval set, and that
    interval calls back with the token the component holds now, never with
    an older one. *)
Theorem valid_polls_with_current_token (backend : string) (p : App.page) :
  reachable backend p ->
  App.mounted p = true ->
  App.isAuthenticated (App.st p) = true ->
  JS.truthy (App.accessToken (App.st p)) = true ->
  exists id l,
    App.timers p = {[id := App.Closure (App.accessToken (App.st p)) l]}.
Proof.
  intros (code & local & session & evs & Hrun) Hm Ha Ht.
  destruct (run_polling_current_invariant backend evs _ p
              (mount_settled backend code local session)
              (mount_polling_current backend code local session) Hrun)
    as [[Htr Hsy] Hc].
  unfold synced, polling_current in *.
  destruct (App.polling p) as [e|]; [|congruence].
  rewrite Hsy in Hc. cbn [fst snd] in Hc.
  destruct (App.intervalId e) as [id|].
  - destruct Hc as [l Hl]. exists id, l. exact Hl.
  - rewrite Ha, Ht in Hc. discriminate Hc.
Qed.

Lemma valid_polls_with_current_token_witness :
  exists id l,
    App.timers returning_session
    = {[id := App.Closure (App.accessToken (App.st returning_session)) l]}.
Proof.
  apply (valid_polls_with_current_token "http://localhost:3000" returning_session).
  - exists JS.VNull, (<["spotify_access_token" := "AT1"]> ∅), ∅, []. reflexivity.
  - reflexivity.
  - reflexivity.
  - reflexivity.
Defined.

Lemma token_stored_frame (p q : App.page) :
  App.mounted q = App.mounted p ->
  App.accessToken (App.st q) = App.accessToken (App.st p) ->
  App.localStorage q = App.localStorage p ->
  token_stored p -> token_stored q.
Proof. unfold token_stored. intros -> -> ->. tauto. Qed.

Lemma token_stored_update (f : App.state -> App.state) (p : App.page) :
  (forall s, App.accessToken (f s) = App.accessToken s) ->
  token_stored p -> token_stored (App.update f p).
Proof.
  intros Hf. apply token_stored_frame.
  - apply update_keeps.
  - unfold App.update. destruct (App.mounted p); cbn; [apply Hf | reflexivity].
  - apply update_keeps.
Qed.

Lemma token_stored_clearAuth (p : App.page) : token_stored (App.clearAuth p).
Proof.
  intros Hm Ht. exfalso. apply Ht.
  assert (Hm' : App.mounted p = true).
  { rewrite <- Hm. symmetry. apply clearAuth_same_polling. }
  destruct (clearAuth_clears p) as (_ & _ & _ & _ & Hst). rewrite (Hst Hm'). reflexivity.
Qed.

Lemma token_stored_validate_start
    (backend : string) (l : bool) (t : JS.value) (p : App.page) :
  token_stored p -> token_stored (App.validate_start backend l t p).
Proof.
  intros H. unfold App.validate_start. destruct (JS.falsy t).
  - apply token_stored_update; [reflexivity | apply token_stored_clearAuth].
  - exact H.
Qed.

Lemma token_stored_update2 (b : bool) (v : JS.value) (p : App.page) :
  token_stored p ->
  token_stored (App.update (App.setIsAuthenticated b) (App.update (App.setTrack v) p)).
Proof. intros H. repeat (apply token_stored_update; [reflexivity|]). exact H. Qed.

Lemma token_stored_validate_resume (l : bool) (r : Http.reply) (p : App.page) :
  token_stored p -> token_stored (App.validate_resume l r p).
Proof.
  intros H.
  assert (G : token_stored match App.validate_try r p with
                           | Some p' => p'
                           | None => App.clearAuth p
                           end).
  { unfold App.validate_try.
    destruct r as [status ct c|m]; [|apply token_stored_clearAuth].
    destruct (status =? 401); [apply token_stored_clearAuth|].
    destruct (status =? 204); [apply token_stored_update2, H|].
    destruct (negb (Http.ok status)); [apply token_stored_clearAuth|].
    destruct (App.is_json ct); [|apply token_stored_update2, H].
    destruct (Http.json c) as [data|e]; [|apply token_stored_clearAuth].
    destruct (JS.truthy data && JS.truthy (JS.get_opt data "name"));
      apply token_stored_update2, H. }
  unfold App.validate_resume. destruct l; [|exact G].
  apply token_stored_update; [reflexivity | exact G].
Qed.

Lemma token_stored_exchange_resume (backend : string) (r : Http.reply) (p : App.page) :
  token_stored p -> token_stored (App.exchange_resume backend r p).
Proof.
  intros H. unfold App.exchange_resume.
  destruct r as [status ct c|m]; [|apply token_stored_clearAuth].
  destruct (negb (Http.ok status)); [apply token_stored_clearAuth|].
  destruct (JS.bind _ _) as [t|e]; [|apply token_stored_clearAuth].
  apply token_stored_validate_start. apply token_stored_update; [reflexivity|].
  destruct p as [s ls ss m eff t0 n rq aw]. intros Hm _.
  unfold App.update in *. destruct m; cbn in *; [apply lookup_insert_eq | discriminate].
Qed.

Lemma token_stored_commit (p : App.page) : token_stored p -> token_stored (App.commit p).
Proof.
  destruct (commit_frame p) as (Hs & Hl & _ & Hm & _).
  apply token_stored_frame; [exact Hm | rewrite Hs; reflexivity | exact Hl].
Qed.

Lemma step_token_stored (backend : string) (ev : App.event) (p p' : App.page) :
  token_stored p -> App.step backend ev p = Some p' -> token_stored p'.
Proof.
  intros H. destruct ev as [id|i r| |]; cbn.
  - destruct (App.timers p !! id) as [c|]; [|discriminate]. intros [= <-].
    apply token_stored_commit, token_stored_validate_start, H.
  - destruct (App.awaiting p !! i) as [[l|]|]; [| |discriminate]; intros [= <-];
      apply token_stored_commit.
    + apply token_stored_validate_resume. exact H.
    + apply token_stored_exchange_resume. exact H.
  - destruct (_ && _); [|discriminate]. intros [= <-].
    apply token_stored_commit, token_stored_clearAuth.
  - destruct (App.mounted p); [|discriminate]. intros [= <-]. intros Hm. discriminate Hm.
Qed.

Lemma mount_token_stored (backend : string) (code : JS.value)
    (local session : gmap string string) :
  token_stored (App.mount backend code local session).
Proof.
  unfold App.mount. apply token_stored_commit.
  set (p0 := App.run_polling (App.Page App.initial local session true None ∅ 1 [] [])).
  assert (H0 : token_stored p0) by (intros _ Ht; exfalso; apply Ht; reflexivity).
  unfold App.startup. destruct (JS.truthy code).
  - unfold App.exchange_start. destruct (JS.falsy _).
    + apply token_stored_update; [reflexivity | apply token_stored_clearAuth].
    + exact H0.
  - destruct (JS.truthy _) eqn:Et.
    + apply token_stored_validate_start. apply token_stored_update; [reflexivity|].
      intros _ _. unfold App.getItem in *. cbn in *.
      destruct (local !! "spotify_access_token"); [reflexivity | discriminate Et].
    + repeat (apply token_stored_update; [reflexivity|]). exact H0.
Qed.

(** X24.  In every page a session can reach, while the component is
    mounted, a token it holds in its state is the token in durable storage:
    the state never holds a token that a reload would not find. *)
Theorem state_token_is_stored (backend : string) (p : App.page) :
  reachable backend p ->
  App.mounted p = true ->
  App.accessToken (App.st p) <> JS.VNull ->
  App.localStorage p !! "spotify_access_token"
  = Some (JS.to_string (App.accessToken (App.st p))).
Proof.
  intros (code & local & session & evs & Hrun).
  change (token_stored p).
  pose proof (mount_token_stored backend code local session) as H0.
  revert Hrun H0. generalize (App.mount backend code local session).
  induction evs as [|ev evs IH]; intros q; cbn.
  - intros [= <-] H. exact H.
  - destruct (App.step backend ev q) as [q1|] eqn:E; [|discriminate].
    intros Hrun H. apply (IH q1 Hrun). eapply step_token_stored; eauto.
Qed.

Lemma state_token_is_stored_witness :
  App.localStorage returning_session !! "spotify_access_token"
  = Some (JS.to_string (App.accessToken (App.st returning_session))).
Proof.
  apply (state_token_is_stored "http://localhost:3000" returning_session).
  - exists JS.VNull, (<["spotify_access_token" := "AT1"]> ∅), ∅, []. reflexivity.
  - reflexivity.
  - discriminate.
Defined.

(** ** The component through the proxy to the provider *)






